(** * repolinter: the scoped file-system accessor (lib/file_system.js)

    A shallow embedding of the [FileSystem] class and of the parts of the
    Node.js runtime it calls, followed by the properties of the class.

    Conventions of the embedding.
    - A JavaScript string is represented by its UTF-8 encoding, a [string]
      of bytes; the strings in play are well formed.  The string operations
      of the class ([startsWith], [includes], [indexOf] and [substring] at
      the positions [indexOf] gives, [split]/[join] on a one-character
      separator) then act on the bytes.  The contents of files and buffers
      are bytes too; reading them as strings is [Utf8.decode].
    - A promise is represented by its settled state ([Fulfilled] or
      [Rejected]); [await], [try]/[catch] and [async] are given their
      JavaScript meaning on settled promises.
    - The file system is an explicit [world]: what is stored under each
      absolute path (regular files, directories, symbolic links), injected
      faults, and the table of open file handles.  A system call that
      follows symbolic links sees the tree through [entries]; [unlink] and
      the glob engine look at what is stored.  Directories are kept under
      their own names: a path through a symbolic link to a directory has no
      meaning of its own, and every regular file has one name.  A read
      through a handle returns the next bytes of the file, as many as were
      asked for or as are left.
    - The glob engine, the binary detector and the [path] module belong to
      the environment ([Runtime]); concrete runs use a POSIX host, with
      [Glob.run] for the engine where the expansion matters. *)

From Stdlib Require Import String Ascii ZArith Lia Bool.
From stdpp Require Import gmap strings list.

Local Open Scope Z_scope.

(** ** JavaScript strings *)

Module JsString.

Definition len (s : string) : Z := Z.of_nat (String.length s).

Fixpoint drop (n : nat) (s : string) : string :=
  match n, s with
  | O, _ => s
  | S n', String _ s' => drop n' s'
  | S _, EmptyString => EmptyString
  end.

(** [s.startsWith(p)] *)
Definition startsWith (s p : string) : bool := String.prefix p s.

(** [s.includes(sub)] *)
Fixpoint includes (s sub : string) : bool :=
  String.prefix sub s ||
  match s with
  | EmptyString => false
  | String _ s' => includes s' sub
  end.

(** First position [>= i] at which [pat] occurs, [s] being the suffix of
    the searched string that starts at position [i]; [-1] if there is none. *)
Fixpoint search (pat s : string) (i : Z) : Z :=
  if String.prefix pat s then i
  else match s with
       | EmptyString => -1
       | String _ s' => search pat s' (i + 1)
       end.

Definition clamp (s : string) (i : Z) : nat := Z.to_nat (Z.max 0 (Z.min i (len s))).

(** [s.indexOf(pat, fromIndex)] *)
Definition indexOf (s pat : string) (fromIndex : Z) : Z :=
  let k := clamp s fromIndex in
  search pat (drop k s) (Z.of_nat k).

(** [s.substring(a, b)]: both ends are clamped to the string, and swapped
    when [a > b]. *)
Definition substring (s : string) (a b : Z) : string :=
  let a' := clamp s a in
  let b' := clamp s b in
  String.substring (Nat.min a' b') (Nat.max a' b' - Nat.min a' b') s.

(** [s.substring(a)] *)
Definition substring_from (s : string) (a : Z) : string :=
  substring s a (len s).

(** [s.split(sep)] for a one-character separator. *)
Fixpoint split (sep : ascii) (s : string) : list string :=
  match s with
  | EmptyString => [EmptyString]
  | String c s' =>
      if Ascii.eqb c sep then EmptyString :: split sep s'
      else match split sep s' with
           | [] => [String c EmptyString]
           | w :: ws => String c w :: ws
           end
  end.

(** [parts.join(glue)] *)
Fixpoint join (glue : string) (parts : list string) : string :=
  match parts with
  | [] => EmptyString
  | [w] => w
  | w :: ws => w +:+ glue +:+ join glue ws
  end.

End JsString.

Definition newline : string := String "010"%char EmptyString.

(** ** UTF-8 *)

Module Utf8.

(** The encoding of U+FFFD, the replacement character. *)
Definition replacement : string :=
  String "239" (String "191" (String "189" EmptyString)).

Definition between (lo hi : nat) (b : ascii) : bool :=
  (lo <=? nat_of_ascii b)%nat && (nat_of_ascii b <=? hi)%nat.

Definition continuation (b : ascii) : bool := between 128 191 b.

(** The bounds of the byte that may follow a lead byte of a three-byte or
    four-byte sequence. *)
Definition second_low (lead : ascii) : nat :=
  if between 224 224 lead then 160 else if between 240 240 lead then 144 else 128.
Definition second_high (lead : ascii) : nat :=
  if between 237 237 lead then 159 else if between 244 244 lead then 143 else 191.

(** Decoding bytes as UTF-8 into a string, the string being given by its
    UTF-8 encoding again: well-formed sequences are kept, every maximal
    ill-formed run of bytes becomes one replacement character. *)
Fixpoint decode (bytes : string) : string :=
  match bytes with
  | EmptyString => EmptyString
  | String b0 rest =>
      if between 0 127 b0 then String b0 (decode rest)
      else if between 194 223 b0 then
        match rest with
        | String b1 r1 =>
            if continuation b1 then String b0 (String b1 (decode r1))
            else replacement +:+ decode rest
        | EmptyString => replacement
        end
      else if between 224 239 b0 then
        match rest with
        | String b1 r1 =>
            if between (second_low b0) (second_high b0) b1 then
              match r1 with
              | String b2 r2 =>
                  if continuation b2 then String b0 (String b1 (String b2 (decode r2)))
                  else replacement +:+ decode r1
              | EmptyString => replacement
              end
            else replacement +:+ decode rest
        | EmptyString => replacement
        end
      else if between 240 244 b0 then
        match rest with
        | String b1 r1 =>
            if between (second_low b0) (second_high b0) b1 then
              match r1 with
              | String b2 r2 =>
                  if continuation b2 then
                    match r2 with
                    | String b3 r3 =>
                        if continuation b3 then
                          String b0 (String b1 (String b2 (String b3 (decode r3))))
                        else replacement +:+ decode r2
                    | EmptyString => replacement
                    end
                  else replacement +:+ decode r1
              | EmptyString => replacement
              end
            else replacement +:+ decode rest
        | EmptyString => replacement
        end
      else replacement +:+ decode rest
  end.

End Utf8.

(** ** Errors, promises and function bodies *)

(** An [Error] object; only its [message] is ever inspected. *)
Record js_error := JsError { message : string }.

(** The message Node gives a failed system call:
    [CODE: description, syscall 'path']. *)
Definition system_error (code desc syscall path : string) : js_error :=
  JsError (code +:+ ": " +:+ desc +:+ ", " +:+ syscall +:+ " '" +:+ path +:+ "'").

Definition ENOENT : string -> string -> js_error :=
  system_error "ENOENT" "no such file or directory".
Definition EACCES : string -> string -> js_error :=
  system_error "EACCES" "permission denied".
Definition ELOOP : string -> string -> js_error :=
  system_error "ELOOP" "too many symbolic links encountered".
Definition EISDIR : string -> string -> js_error :=
  system_error "EISDIR" "illegal operation on a directory".
Definition EBADF (syscall : string) : js_error :=
  JsError ("EBADF: bad file descriptor, " +:+ syscall).

(** A promise, by its settled state. *)
Inductive promise (A : Type) : Type :=
| Fulfilled (a : A)
| Rejected (e : js_error).
Arguments Fulfilled {A} a.
Arguments Rejected {A} e.

(** The way a statement completes: normally with a value, or by a [throw]. *)
Inductive completion (A : Type) : Type :=
| Normal (a : A)
| Throw (e : js_error).
Arguments Normal {A} a.
Arguments Throw {A} e.

(** [p.then(f)] for a handler that returns a plain value. *)
Definition promise_then {A B} (p : promise A) (f : A -> B) : promise B :=
  match p with
  | Fulfilled a => Fulfilled (f a)
  | Rejected e => Rejected e
  end.

(** [p.catch(f)] for a handler that returns a plain value. *)
Definition promise_catch {A} (p : promise A) (f : js_error -> A) : promise A :=
  match p with
  | Fulfilled a => Fulfilled a
  | Rejected e => Fulfilled (f e)
  end.

(** ** The file system *)

(** What is stored under a name: a regular file that the process may read
    and write, a directory, a symbolic link with the absolute path it
    points to, or a regular file that the process may write but not read
    (mode 0200). *)
Inductive node : Type :=
| File (content : string)
| Dir
| Link (target : string)
| WriteOnly (content : string).

(** An open [FileHandle]: the node it reads and the current position. *)
Record FileHandle := { h_node : node; h_pos : nat }.

(** [names] maps an absolute path to what is stored under it; [faults]
    lists the paths on which every system call fails, with the error it
    fails with (search permission denied on a directory of the path, an
    input/output error, ...); [fds] is the table of open handles. *)
Record world := World {
  names : gmap string node;
  faults : gmap string js_error;
  fds : gmap nat FileHandle
}.

Definition set_names (w : world) (m : gmap string node) : world :=
  World m (faults w) (fds w).
Definition set_fds (w : world) (t : gmap nat FileHandle) : world :=
  World (names w) (faults w) t.

(** The number of symbolic links a system call follows before it gives up
    (Linux). *)
Definition max_links : nat := 40.

(** The path reached from [path] by following symbolic links, [hops] of
    them at most; [None] when there are more. *)
Fixpoint follow (tree : gmap string node) (hops : nat) (path : string) : option string :=
  match tree !! path with
  | Some (Link target) =>
      match hops with
      | O => None
      | S hops' => follow tree hops' target
      end
  | _ => Some path
  end.

(** What a system call that follows symbolic links finds at [path]: what
    is stored where the links lead, nothing when they lead nowhere, and a
    link still when there are too many of them. *)
Definition found (tree : gmap string node) (path : string) : option node :=
  match follow tree max_links path with
  | Some final => tree !! final
  | None => Some (Link path)
  end.

(** The tree as the system calls that follow symbolic links see it: under
    each name, what is found there. *)
Definition entries (w : world) : gmap string node :=
  map_imap (fun path _ => found (names w) path) (names w).

(** An asynchronous operation run to settlement, and the body of a function. *)
Definition io (A : Type) : Type := world -> promise A * world.
Definition body (A : Type) : Type := world -> completion A * world.

Definition ret {A} (a : A) : body A := fun w => (Normal a, w).
Definition throw {A} (e : js_error) : body A := fun w => (Throw e, w).
Definition bind {A B} (c : body A) (k : A -> body B) : body B :=
  fun w => match c w with
           | (Normal a, w') => k a w'
           | (Throw e, w') => (Throw e, w')
           end.

Notation "x <- c ;; k" := (bind c (fun x => k))
  (at level 100, c at next level, right associativity).
Notation "c ;;; k" := (bind c (fun _ => k))
  (at level 100, right associativity).

(** Calling an asynchronous operation starts it and yields its promise; the
    call itself never throws. *)
Definition call {A} (op : io A) : body (promise A) :=
  fun w => let (p, w') := op w in (Normal p, w').

(** [await p] *)
Definition await {A} (p : promise A) : body A :=
  match p with
  | Fulfilled a => ret a
  | Rejected e => throw e
  end.

(** [try { b } catch (e) { h e }] *)
Definition try_catch {A} (b : body A) (h : js_error -> body A) : body A :=
  fun w => match b w with
           | (Normal a, w') => (Normal a, w')
           | (Throw e, w') => h e w'
           end.

(** [return v] for a plain value [v] of an [async] function. *)
Definition return_value {A} (a : A) : body (promise A) := ret (Fulfilled a).

(** An [async] function: the promise it returns is resolved with the value
    the body returns (a returned promise is adopted) and rejected with what
    the body throws. *)
Definition async {A} (b : body (promise A)) : io A :=
  fun w => match b w with
           | (Normal p, w') => (p, w')
           | (Throw e, w') => (Rejected e, w')
           end.

(** *** [fs.promises] *)

Module fs.

(** What a system call on [path] finds: the injected fault, or what the
    path leads to. *)
Definition probe (syscall path : string) (w : world) : js_error + node :=
  match faults w !! path with
  | Some e => inl e
  | None =>
      match entries w !! path with
      | Some (Link _) => inl (ELOOP syscall path)
      | Some n => inr n
      | None => inl (ENOENT syscall path)
      end
  end.

(** The same for a system call that needs read permission. *)
Definition probe_read (syscall path : string) (w : world) : js_error + node :=
  match probe syscall path w with
  | inr (WriteOnly _) => inl (EACCES syscall path)
  | r => r
  end.

(** [fs.promises.access(path, fs.constants.F_OK)] *)
Definition access (path : string) : io unit := fun w =>
  match probe "access" path w with
  | inl e => (Rejected e, w)
  | inr _ => (Fulfilled tt, w)
  end.

(** [fs.promises.readFile(path, 'utf8')] *)
Definition readFile (path : string) : io string := fun w =>
  match faults w !! path, entries w !! path with
  | Some e, _ => (Rejected e, w)
  | None, Some (File c) => (Fulfilled (Utf8.decode c), w)
  | None, Some Dir => (Rejected (EISDIR "read" path), w)
  | None, Some (Link _) => (Rejected (ELOOP "open" path), w)
  | None, Some (WriteOnly _) => (Rejected (EACCES "open" path), w)
  | None, None => (Rejected (ENOENT "open" path), w)
  end.

(** The directory a path lies in. *)
Definition dirname (path : string) : string :=
  let dir := JsString.join "/" (removelast (JsString.split "/" path)) in
  if String.eqb dir "" then "/" else dir.

Definition is_directory (w : world) (path : string) : bool :=
  String.eqb path "/" ||
  match names w !! path with
  | Some Dir => true
  | _ => false
  end.

(** [fs.promises.writeFile(path, contents)]: follows symbolic links to the
    file, creates it when there is none and its directory exists, or
    truncates it, and writes the UTF-8 encoding of the string. *)
Definition writeFile (path contents : string) : io unit := fun w =>
  match faults w !! path with
  | Some e => (Rejected e, w)
  | None =>
      match follow (names w) max_links path with
      | None => (Rejected (ELOOP "open" path), w)
      | Some final =>
          match names w !! final with
          | Some (File _) =>
              (Fulfilled tt, set_names w (<[final := File contents]> (names w)))
          | Some (WriteOnly _) =>
              (Fulfilled tt, set_names w (<[final := WriteOnly contents]> (names w)))
          | Some Dir => (Rejected (EISDIR "open" path), w)
          | Some (Link _) => (Rejected (ELOOP "open" path), w)
          | None =>
              if is_directory w (dirname final) then
                (Fulfilled tt, set_names w (<[final := File contents]> (names w)))
              else (Rejected (ENOENT "open" path), w)
          end
      end
  end.

(** [fs.promises.unlink(path)]: removes the name, be it that of a file or
    of a symbolic link, which it does not follow. *)
Definition unlink (path : string) : io unit := fun w =>
  match faults w !! path, names w !! path with
  | Some e, _ => (Rejected e, w)
  | None, Some Dir => (Rejected (EISDIR "unlink" path), w)
  | None, Some _ => (Fulfilled tt, set_names w (delete path (names w)))
  | None, None => (Rejected (ENOENT "unlink" path), w)
  end.

(** [fs.promises.open(path, 'r')]: a directory can be opened for reading,
    it is the reads that fail. *)
Definition open (path : string) : io nat := fun w =>
  match probe_read "open" path w with
  | inl e => (Rejected e, w)
  | inr n =>
      let fd := fresh (dom (fds w)) in
      (Fulfilled fd, set_fds w (<[fd := {| h_node := n; h_pos := 0 |}]> (fds w)))
  end.

(** [Buffer.alloc(size)] *)
Fixpoint alloc (size : nat) : string :=
  match size with
  | O => EmptyString
  | S n => String zero (alloc n)
  end.

(** [fd.read(buffer, 0, count, null)]: copies the next bytes of the file,
    at most [count] of them, to the start of the buffer and advances the
    position.  The result is [bytesRead] with the buffer as it is then. *)
Definition read (fd : nat) (buffer : string) (count : nat) : io (Z * string) := fun w =>
  match fds w !! fd with
  | None => (Rejected (EBADF "read"), w)
  | Some h =>
      match h_node h with
      | Dir => (Rejected (JsError "EISDIR: illegal operation on a directory, read"), w)
      | File c =>
          let chunk := String.substring (h_pos h) count c in
          let n := String.length chunk in
          (Fulfilled (Z.of_nat n, chunk +:+ JsString.drop n buffer),
           set_fds w (<[fd := {| h_node := File c; h_pos := (h_pos h + n)%nat |}]> (fds w)))
      | Link _ | WriteOnly _ => (Rejected (EBADF "read"), w)
      end
  end.

(** [fd.close()] *)
Definition close (fd : nat) : io unit := fun w =>
  match fds w !! fd with
  | None => (Rejected (EBADF "close"), w)
  | Some _ => (Fulfilled tt, set_fds w (delete fd (fds w)))
  end.

(** [buffer.toString('utf8', 0, end)] *)
Definition toString (buffer : string) (e : Z) : string :=
  Utf8.decode (String.substring 0 (Z.to_nat e) buffer).

End fs.

(** ** What the class takes from its environment *)

(** The [globs] argument: one pattern or an array of patterns. *)
Inductive globs : Type :=
| Pattern (g : string)
| Patterns (gs : list string).

(** The options object handed to the glob engine.  [symlinks], when given,
    is the object in which the engine records, for the absolute paths it
    examines, whether each is a symbolic link. *)
Record glob_options := {
  cwd : string;
  nocase : bool;
  nodir : bool;
  symlinks : option (gmap string bool)
}.

(** [platform] is [process.platform], [sep] is [path.sep], [path_resolve]
    and [path_relative] are [path.resolve] and [path.relative], [matched] is
    the glob engine (package [matched]): its promise carries the matches
    together with the state of [options.symlinks] once expansion is over;
    [isbinaryfile] is [isBinaryFile] of package [isbinaryfile]. *)
Class Runtime := {
  platform : string;
  sep : ascii;
  path_resolve : string -> string -> string;
  path_relative : string -> string -> string;
  matched : globs -> glob_options -> io (list string * gmap string bool);
  isbinaryfile : string -> io bool
}.

(** *** [path] on POSIX hosts *)

Module Posix.

(** [normalizeString]: drops empty and ["."] segments, lets [".."] cancel
    the segment before it; [stack] holds the result so far, last segment
    first. *)
Fixpoint normalize_segments (allowAboveRoot : bool) (stack segs : list string) : list string :=
  match segs with
  | [] => rev stack
  | seg :: rest =>
      if String.eqb seg "" || String.eqb seg "." then
        normalize_segments allowAboveRoot stack rest
      else if String.eqb seg ".." then
        match stack with
        | top :: below =>
            if String.eqb top ".." then normalize_segments allowAboveRoot (seg :: stack) rest
            else normalize_segments allowAboveRoot below rest
        | [] =>
            if allowAboveRoot then normalize_segments allowAboveRoot [seg] rest
            else normalize_segments allowAboveRoot [] rest
        end
      else normalize_segments allowAboveRoot (seg :: stack) rest
  end.

Definition normalizeString (path : string) (allowAboveRoot : bool) : string :=
  JsString.join "/" (normalize_segments allowAboveRoot [] (JsString.split "/" path)).

Definition isAbsolute (path : string) : bool := JsString.startsWith path "/".

(** The right-to-left pass of [path.resolve]: [args] is given last
    argument first, followed by the working directory. *)
Fixpoint resolve_args (args : list string) (resolvedPath : string) : string * bool :=
  match args with
  | [] => (resolvedPath, false)
  | path :: more =>
      if String.eqb path "" then resolve_args more resolvedPath
      else if isAbsolute path then (path +:+ "/" +:+ resolvedPath, true)
      else resolve_args more (path +:+ "/" +:+ resolvedPath)
  end.

(** [path.resolve(...args)] with [process.cwd()] being [wd]. *)
Definition resolve (wd : string) (args : list string) : string :=
  let (resolvedPath, resolvedAbsolute) := resolve_args (rev args ++ [wd]) "" in
  let normalized := normalizeString resolvedPath (negb resolvedAbsolute) in
  if resolvedAbsolute then "/" +:+ normalized
  else if String.eqb normalized "" then "." else normalized.

Fixpoint strip_common (a b : list string) : list string * list string :=
  match a, b with
  | x :: a', y :: b' => if String.eqb x y then strip_common a' b' else (a, b)
  | _, _ => (a, b)
  end.

Definition segments (absolute : string) : list string :=
  List.filter (fun seg => negb (String.eqb seg "")) (JsString.split "/" absolute).

(** [path.relative(from, to)]: one [".."] for each segment of [from] below
    the common ancestor, then what is left of [to]. *)
Definition relative (wd : string) (from to : string) : string :=
  if String.eqb from to then ""
  else
    let from' := resolve wd [from] in
    let to' := resolve wd [to] in
    if String.eqb from' to' then ""
    else
      let (up, down) := strip_common (segments from') (segments to') in
      JsString.join "/" (map (fun _ => "..") up ++ down).

End Posix.

(** ** The class *)

Record FileSystem := { targetDir : string; filterPaths : list string }.

(** A value that may be [undefined], in a boolean position. *)
Definition truthy (b : option bool) : bool := default false b.

(** The own property names of [Object.prototype]: looking any of them up on
    an object literal finds an inherited, truthy value. *)
Definition object_prototype_keys : list string :=
  ["constructor"; "__defineGetter__"; "__defineSetter__"; "hasOwnProperty";
   "__lookupGetter__"; "__lookupSetter__"; "isPrototypeOf";
   "propertyIsEnumerable"; "toString"; "valueOf"; "__proto__";
   "toLocaleString"].

(** [!!obj[key]] for an object literal whose own properties, the members of
    [own], were all assigned [true]. *)
Definition truthy_property (own : gset string) (key : string) : bool :=
  bool_decide (key ∈ own) || bool_decide (key ∈ object_prototype_keys).

Definition bufferSize : nat := 1024.

(** How the inner [while] of [getFileLines] is left: by the [return] in its
    body, or because [indexOf] found no further line feed. *)
Inductive scan_exit : Type :=
| ScanReturn (lines : string)
| ScanDone (idxStart lineNumber : Z) (lines : string).

(** How the outer [while (true)] of [getFileLines] is left. *)
Inductive loop_exit : Type :=
| LoopReturn (lines : string)
| LoopBreak (lines : string).

Section Class.

Context {rt : Runtime}.

(** [static fileExists (file)] *)
Definition fileExists (file : string) : io bool := fun w =>
  let (p, w') := fs.access file w in
  (promise_catch (promise_then p (fun _ => true)) (fun _ => false), w').

Definition relativeFileExists (this : FileSystem) (file : string) : io bool :=
  fileExists (path_resolve (targetDir this) file).

Definition normalizePath (filepath : string) : string :=
  if String.eqb platform "win32" then JsString.join "/" (JsString.split sep filepath)
  else filepath.

Definition shouldInclude (this : FileSystem) (filePath : string) : bool :=
  if (length (filterPaths this) =? 0)%nat then true
  else
    let resolvedPath :=
      normalizePath (path_relative (targetDir this) (path_resolve (targetDir this) filePath)) in
    existsb (fun p => JsString.startsWith resolvedPath p)
            (map normalizePath (filterPaths this)).

Definition fix_globs (g : globs) : globs :=
  match g with
  | Pattern s => Pattern (normalizePath s)
  | Patterns gs => Patterns (map normalizePath gs)
  end.

Definition glob (this : FileSystem) (g : globs) (options : glob_options)
  : io (list string * gmap string bool) :=
  async (
    let fixedGlobs := fix_globs g in
    r <- (p <- call (matched fixedGlobs options) ;; await p) ;;
    return_value
      (List.filter (fun p => shouldInclude this p) (map normalizePath (fst r)), snd r)).

Definition findAll (this : FileSystem) (g : globs) (nocase : option bool) : io (list string) :=
  async (
    let nocase := Some (default false nocase) in
    let fixedGlobs := fix_globs g in
    p <- call (glob this fixedGlobs
                 {| cwd := targetDir this; nocase := negb (negb (truthy nocase));
                    nodir := false; symlinks := None |}) ;;
    ret (promise_then p fst)).

Definition findAllFiles (this : FileSystem) (g : globs) (nocase : option bool) : io (list string) :=
  async (
    let symlinks : gmap string bool := ∅ in
    r <- (p <- call (glob this g
                       {| cwd := targetDir this; nocase := negb (negb (truthy nocase));
                          nodir := true; symlinks := Some symlinks |}) ;;
          await p) ;;
    let filePaths := fst r in
    let symlinks := snd r in
    let onlySymlinks : gset string :=
      foldr (fun '(fullPath, isLink) onlySymlinks =>
               if (isLink : bool) then
                 let relativeToRepoPath :=
                   normalizePath (path_relative (targetDir this) fullPath) in
                 {[ relativeToRepoPath ]} ∪ onlySymlinks
               else onlySymlinks)
            ∅ (map_to_list symlinks) in
    return_value
      (List.filter (fun filePath => negb (truthy_property onlySymlinks (normalizePath filePath)))
                   filePaths)).

Definition findFirst (this : FileSystem) (g : globs) (nocase : option bool) : io (option string) :=
  async (
    allFiles <- (p <- call (findAll this g nocase) ;; await p) ;;
    if (0 <? length allFiles)%nat then return_value (allFiles !! 0%nat)
    else return_value None).

Definition findFirstFile (this : FileSystem) (g : globs) (nocase : option bool) : io (option string) :=
  async (
    allFiles <- (p <- call (findAllFiles this g nocase) ;; await p) ;;
    if (0 <? length allFiles)%nat then return_value (allFiles !! 0%nat)
    else return_value None).

(** The promise of the detector is returned as it is, not awaited: what the
    [try] guards is the call alone. *)
Definition isBinaryFile (this : FileSystem) (relativeFile : string) : io bool :=
  async (
    let file := path_resolve (targetDir this) relativeFile in
    try_catch
      (p <- call (isbinaryfile file) ;; ret p)
      (fun e =>
         if JsString.includes (message e) "ENOENT" then return_value false
         else throw e)).

Definition getFileContents (this : FileSystem) (relativeFile : string) : io (option string) :=
  async (
    let file := path_resolve (targetDir this) relativeFile in
    try_catch
      (text <- (p <- call (fs.readFile file) ;; await p) ;;
       return_value (Some text))
      (fun e => return_value None)).

Definition setFileContents (this : FileSystem) (relativeFile contents : string) : io unit :=
  async (call (fs.writeFile (path_resolve (targetDir this) relativeFile) contents)).

Definition removeFile (this : FileSystem) (relativeFile : string) : io unit :=
  async (call (fs.unlink (path_resolve (targetDir this) relativeFile))).

(** The inner [while] of [getFileLines], from the test of its condition.
    With [fuel] iterations at hand; [None] when they do not suffice. *)
Fixpoint scan (fuel : nat) (leftOver : string) (lineCount idxStart lineNumber : Z)
    (lines : string) : option scan_exit :=
  match fuel with
  | O => None
  | S fuel' =>
      let idx := JsString.indexOf leftOver newline idxStart in
      if idx =? -1 then Some (ScanDone idxStart lineNumber lines)
      else
        let lineNumber := lineNumber + 1 in
        let lines := lines +:+ (JsString.substring leftOver idxStart idx +:+ newline) in
        let idxStart := idx + 1 in
        if lineNumber >=? lineCount then Some (ScanReturn lines)
        else scan fuel' leftOver lineCount idxStart lineNumber lines
  end.

(** The outer [while (true)] of [getFileLines].  The [return] of the inner
    loop closes the handle first. *)
Fixpoint read_loop (fuel : nat) (fd : nat) (buffer : string) (lineCount : Z)
    (leftOver lines : string) (lineNumber : Z) (w : world)
    : option (completion loop_exit * world) :=
  match fuel with
  | O => None
  | S fuel' =>
      match (p <- call (fs.read fd buffer bufferSize) ;; await p) w with
      | (Throw e, w1) => Some (Throw e, w1)
      | (Normal (read, buffer), w1) =>
          if read =? 0 then Some (Normal (LoopBreak lines), w1)
          else
            let leftOver := leftOver +:+ fs.toString buffer read in
            let idxStart := 0 in
            match scan (S (String.length leftOver)) leftOver lineCount idxStart lineNumber lines with
            | None => None
            | Some (ScanReturn lines) =>
                Some ((call (fs.close fd) ;;; ret (LoopReturn lines)) w1)
            | Some (ScanDone idxStart lineNumber lines) =>
                let leftOver := JsString.substring_from leftOver idxStart in
                read_loop fuel' fd buffer lineCount leftOver lines lineNumber w1
            end
      end
  end.

(** [getFileLines], its outer loop given [fuel] iterations.  The [return]
    in the [catch] clause leaves the function: the [try] statement yields
    [inl] of the value returned there, or [inr] of the handle. *)
Definition getFileLines (fuel : nat) (this : FileSystem) (relativeFile : string)
    (lineCount : Z) (w : world) : option (promise (option string) * world) :=
  let file := path_resolve (targetDir this) relativeFile in
  let fd : option nat := None in
  match
    try_catch
      (h <- (p <- call (fs.open (path_resolve (targetDir this) file)) ;; await p) ;;
       ret (inr h))
      (fun e =>
         match fd with
         | Some h => call (fs.close h) ;;; ret tt
         | None => ret tt
         end ;;;
         if JsString.includes (message e) "ENOENT" then ret (inl (@None string))
         else throw e) w
  with
  | (Throw e, w1) => Some (Rejected e, w1)
  | (Normal (inl undefined), w1) => Some (Fulfilled undefined, w1)
  | (Normal (inr fd), w1) =>
      let buffer := fs.alloc bufferSize in
      let lines := EmptyString in
      let lineNumber := 0 in
      let leftOver := EmptyString in
      match read_loop fuel fd buffer lineCount leftOver lines lineNumber w1 with
      | None => None
      | Some (Throw e, w2) => Some (Rejected e, w2)
      | Some (Normal (LoopReturn lines), w2) => Some (Fulfilled (Some lines), w2)
      | Some (Normal (LoopBreak lines), w2) =>
          Some (async (call (fs.close fd) ;;; return_value (Some lines)) w2)
      end
  end.

End Class.

(** ** A POSIX host, for concrete runs *)

(** Package [isbinaryfile]: [stat] the path, refuse what is not a file, then
    open it and judge the leading 512 bytes with the heuristic. *)
Definition isbinaryfile_package (heuristic : string -> bool) (file : string) : io bool :=
  fun w =>
    match fs.probe "stat" file w with
    | inl e => (Rejected e, w)
    | inr Dir => (Rejected (JsError "Path provided was not a file!"), w)
    | inr (File c) => (Fulfilled (heuristic (String.substring 0 512 c)), w)
    | inr (WriteOnly _) => (Rejected (EACCES "open" file), w)
    | inr (Link _) => (Rejected (ELOOP "stat" file), w)
    end.

(** The heuristic at its simplest: a zero byte makes a file binary. *)
Definition has_zero_byte (s : string) : bool :=
  JsString.includes s (String zero EmptyString).

Definition posix_runtime (wd : string)
    (engine : globs -> glob_options -> io (list string * gmap string bool)) : Runtime :=
  {| platform := "linux";
     sep := "/"%char;
     path_resolve := fun a b => Posix.resolve wd [a; b];
     path_relative := Posix.relative wd;
     matched := engine;
     isbinaryfile := isbinaryfile_package has_zero_byte |}.

(** An engine that finds nothing. *)
Definition no_matches : globs -> glob_options -> io (list string * gmap string bool) :=
  fun _ _ w => (Fulfilled ([], ∅), w).

(** *** The glob engine

    Package [matched] over package [glob], for patterns made of literal
    segments, segments with [*] and [?], and [**] segments; other magic
    is read literally.  What is modelled:
    - a relative pattern is expanded in [options.cwd] and its matches are
      relative to it, without a leading [./]; the matches of an absolute
      pattern are absolute;
    - [*] and [?] stay within a segment, [**] stands for any number of
      directories, and a name that starts with a dot is matched only by a
      segment that starts with a dot;
    - with [nodir] what is, or leads to, a directory is left out;
    - while it walks a directory for a [**], the engine notes in
      [options.symlinks], under its absolute path, whether the directory
      and each entry it comes to below it is a symbolic link; elsewhere it
      notes nothing;
    - the order of the matches is that in which directories are read, of
      which nothing is assumed. *)

Module Glob.

Definition hidden (name : string) : bool := String.prefix "." name.

Definition lower (c : ascii) : ascii :=
  if Utf8.between 65 90 c then ascii_of_nat (nat_of_ascii c + 32) else c.

Fixpoint lowercase (s : string) : string :=
  match s with
  | EmptyString => EmptyString
  | String c s' => String (lower c) (lowercase s')
  end.

(** A name against a segment with [*] and [?]. *)
Fixpoint wild (pat : string) : string -> bool :=
  match pat with
  | EmptyString => fun name => String.eqb name ""
  | String c pat' =>
      if Ascii.eqb c "*" then
        fix star (name : string) : bool :=
          wild pat' name ||
          match name with
          | EmptyString => false
          | String _ name' => star name'
          end
      else fun name =>
        match name with
        | EmptyString => false
        | String d name' => (Ascii.eqb c "?" || Ascii.eqb c d) && wild pat' name'
        end
  end.

Definition one (pat name : string) : bool :=
  (negb (hidden name) || hidden pat) && wild pat name.

(** The segments of a path or pattern, [.] left out. *)
Definition parts (path : string) : list string :=
  List.filter (fun seg => negb (String.eqb seg "" || String.eqb seg "."))
              (JsString.split "/" path).

(** What is left of [path] below [dir]. *)
Fixpoint below (dir path : list string) : option (list string) :=
  match dir, path with
  | [], _ => Some path
  | d :: dir', p :: path' => if String.eqb d p then below dir' path' else None
  | _ :: _, [] => None
  end.

(** The segments of a path against those of a pattern. *)
Fixpoint matches (pats : list string) : list string -> bool :=
  match pats with
  | [] => fun segs => match segs with [] => true | _ :: _ => false end
  | pat :: pats' =>
      if String.eqb pat "**" then
        fix deeper (segs : list string) : bool :=
          matches pats' segs ||
          match segs with
          | [] => false
          | seg :: segs' => negb (hidden seg) && deeper segs'
          end
      else fun segs =>
        match segs with
        | [] => false
        | seg :: segs' => one pat seg && matches pats' segs'
        end
  end.

(** Whether the walk for the first [**] of the pattern comes to the path. *)
Fixpoint walked (pats segs : list string) : bool :=
  match pats with
  | [] => false
  | pat :: pats' =>
      if String.eqb pat "**" then forallb (fun seg => negb (hidden seg)) segs
      else match segs with
           | [] => false
           | seg :: segs' => one pat seg && walked pats' segs'
           end
  end.

(** One pattern: its matches, and what the walk for a [**] comes to, with
    whether each is a symbolic link. *)
Definition expand (wd : string) (options : glob_options) (w : world) (pattern : string)
    : list string * list (string * bool) :=
  let absolute := Posix.isAbsolute pattern in
  let base := if absolute then [] else parts (Posix.resolve wd [cwd options]) in
  let fold := if nocase options then lowercase else (fun s => s) in
  let pats := map fold (parts pattern) in
  foldr (fun '(path, stored) '(found, seen) =>
           match below base (parts path) with
           | Some rel =>
               let directory :=
                 match entries w !! path with
                 | Some Dir => true
                 | _ => false
                 end in
               let isLink :=
                 match stored with
                 | Link _ => true
                 | _ => false
                 end in
               ((if (0 <? length rel)%nat && matches pats (map fold rel)
                    && negb (nodir options && directory)
                 then (if absolute then path else JsString.join "/" rel) :: found
                 else found),
                (if walked pats (map fold rel) then (path, isLink) :: seen else seen))
           | None => (found, seen)
           end)
        ([], []) (map_to_list (names w)).

(** Several patterns are expanded one by one and their matches united. *)
Definition run (wd : string) (g : globs) (options : glob_options)
    : io (list string * gmap string bool) :=
  fun w =>
    let patterns :=
      match g with
      | Pattern pattern => [pattern]
      | Patterns several => several
      end in
    let results := map (expand wd options w) patterns in
    (Fulfilled (remove_dups (concat (map fst results)),
                match symlinks options with
                | Some cache => list_to_map (concat (map snd results)) ∪ cache
                | None => ∅
                end), w).

End Glob.

(** ** Lines of a text *)

(** The text up to its first line feed and the text after it. *)
Fixpoint cut (t : string) : option (string * string) :=
  match t with
  | EmptyString => None
  | String c t' =>
      if Ascii.eqb c "010" then Some (EmptyString, t')
      else match cut t' with
           | Some (l, r) => Some (String c l, r)
           | None => None
           end
  end.

(** The newline-terminated lines of a text, each with its line feed, and
    what follows the last line feed. *)
Fixpoint split_lines (t : string) : list string * string :=
  match t with
  | EmptyString => ([], EmptyString)
  | String c t' =>
      let (ls, tl) := split_lines t' in
      if Ascii.eqb c "010" then (newline :: ls, tl)
      else match ls with
           | [] => ([], String c tl)
           | l :: ls' => (String c l :: ls', tl)
           end
  end.

Definition lines_of (t : string) : list string := fst (split_lines t).
Definition unterminated (t : string) : string := snd (split_lines t).

Fixpoint concat_lines (ls : list string) : string :=
  match ls with
  | [] => EmptyString
  | l :: ls' => l +:+ concat_lines ls'
  end.

(** ** What [getFileLines] computes *)

(** How many more lines the inner loop appends before its [return]: the
    test [lineNumber >= lineCount] comes after the increment, so at least
    one. *)
Definition lines_wanted (lineCount lineNumber : Z) : nat :=
  Z.to_nat (Z.max 1 (lineCount - lineNumber)).

(** The exit of the inner loop over the text [t] that starts at [idxStart]. *)
Definition scan_result (t : string) (lineCount idxStart lineNumber : Z) (lines : string)
    : scan_exit :=
  let ls := lines_of t in
  let wanted := lines_wanted lineCount lineNumber in
  if (wanted <=? length ls)%nat then ScanReturn (lines +:+ concat_lines (firstn wanted ls))
  else ScanDone (idxStart + JsString.len (concat_lines ls))
                (lineNumber + Z.of_nat (length ls))
                (lines +:+ concat_lines ls).

(** The text that reading [bytes] through a buffer of [size] bytes gives:
    each buffer-full is decoded on its own.  [fuel] bounds the number of
    reads. *)
Fixpoint decode_chunks (fuel size : nat) (bytes : string) : string :=
  match fuel with
  | O => EmptyString
  | S fuel' =>
      let chunk := String.substring 0 size bytes in
      match chunk with
      | EmptyString => EmptyString
      | _ => Utf8.decode chunk +:+
             decode_chunks fuel' size (JsString.drop (String.length chunk) bytes)
      end
  end.

(** The number of line feeds in a text. *)
Fixpoint count_lf (t : string) : nat :=
  match t with
  | EmptyString => 0
  | String c t' => (if Ascii.eqb c "010" then 1 else 0) + count_lf t'
  end.

(** Bytes below 128 only. *)
Fixpoint ascii_only (bytes : string) : bool :=
  match bytes with
  | EmptyString => true
  | String b rest => Utf8.between 0 127 b && ascii_only rest
  end.

(** The text [getFileLines] reads from a file of content [c]. *)
Definition read_text (c : string) : string :=
  decode_chunks (String.length c) bufferSize c.

(** The first [lineCount] lines of a text (the first one when [lineCount]
    is not positive), as one string. *)
Definition first_lines (lineCount : Z) (t : string) : string :=
  concat_lines (firstn (lines_wanted lineCount 0) (lines_of t)).


(** The path [getFileLines] opens. *)
Definition opened {rt : Runtime} (this : FileSystem) (relativeFile : string) : string :=
  path_resolve (targetDir this) (path_resolve (targetDir this) relativeFile).

(** ** Concrete runs *)

Definition host : Runtime := posix_runtime "/home/user" no_matches.
Definition host_glob : Runtime := posix_runtime "/home/user" (Glob.run "/home/user").

Definition repo : FileSystem := {| targetDir := "/repo"; filterPaths := [] |}.
Definition docs_only : FileSystem := {| targetDir := "/repo"; filterPaths := ["docs"] |}.

Definition two_lines : string := "one" +:+ newline +:+ "two" +:+ newline.

(** A line of 1023 letters and an e with acute accent, the two bytes of
    which are the 1024th and the 1025th of the file. *)
Fixpoint letters (n : nat) : string :=
  match n with
  | O => EmptyString
  | S n' => String "a" (letters n')
  end.
Definition e_acute : string := String "195" (String "169" EmptyString).
Definition long_line : string := letters 1023 +:+ e_acute +:+ newline.

Definition empty_world : world := World ∅ ∅ ∅.
Definition repo_world : world := World {[ "/repo" := Dir ]} ∅ ∅.
Definition notes_world : world :=
  World (<["/repo/notes.txt" := File two_lines]> {[ "/repo" := Dir ]}) ∅ ∅.
Definition docs_world : world :=
  World (<["/repo/docs" := Dir]> {[ "/repo" := Dir ]}) ∅ ∅.
Definition draft_world : world :=
  World (<["/repo/draft.txt" := File (two_lines +:+ "unfinished")]> {[ "/repo" := Dir ]}) ∅ ∅.
Definition long_world : world :=
  World (<["/repo/long.txt" := File long_line]> {[ "/repo" := Dir ]}) ∅ ∅.

(** [/repo] with [notes.txt] and a symbolic link [link.txt] to it. *)
Definition linked_world : world :=
  World (<["/repo/link.txt" := Link "/repo/notes.txt"]>
           (<["/repo/notes.txt" := File two_lines]> {[ "/repo" := Dir ]})) ∅ ∅.

(** [/repo] with a symbolic link [link.txt] to a file that is not there. *)
Definition dangling_world : world :=
  World (<["/repo/link.txt" := Link "/repo/gone.txt"]> {[ "/repo" := Dir ]}) ∅ ∅.

(** [/repo] with a file [private.txt] of mode 0200, before and after
    [draft] is written to it. *)
Definition private_world : world :=
  World (<["/repo/private.txt" := WriteOnly "secret"]> {[ "/repo" := Dir ]}) ∅ ∅.
Definition private_world_written : world :=
  World (<["/repo/private.txt" := WriteOnly "draft"]> {[ "/repo" := Dir ]}) ∅ ∅.

(** ** More of the class and of its runs *)

(** [new FileSystem(targetDir, filterPaths)]; an argument left out is
    [None] and takes its default value. *)
Definition new_FileSystem (dir : option string) (filters : option (list string)) : FileSystem :=
  {| targetDir := default "." dir; filterPaths := default [] filters |}.

(** Every [old] character made [new]. *)
Fixpoint replace_char (old new : ascii) (s : string) : string :=
  match s with
  | EmptyString => EmptyString
  | String c s' => String (if Ascii.eqb c old then new else c) (replace_char old new s')
  end.

(** Whether a character occurs in a string. *)
Fixpoint occurs (c : ascii) (s : string) : bool :=
  match s with
  | EmptyString => false
  | String d s' => Ascii.eqb d c || occurs c s'
  end.

(** The expansion of [**/*] in [/repo], which holds [LICENSE],
    [docs/LICENSE.md] and a symbolic link [link.txt]. *)
Definition licenses_run : globs -> glob_options -> io (list string * gmap string bool) :=
  fun _ options w =>
    (Fulfilled (["LICENSE"; "docs/LICENSE.md"; "link.txt"],
                match symlinks options with
                | Some cache =>
                    <["/repo/link.txt" := true]>
                      (<["/repo/docs/LICENSE.md" := false]> (<["/repo/LICENSE" := false]> cache))
                | None => ∅
                end), w).

(** The own properties of [onlySymlinks] in [findAllFiles], from the state
    of the [symlinks] object after the expansion. *)
Definition onlySymlinks_of {rt : Runtime} (this : FileSystem) (reported : gmap string bool)
    : gset string :=
  foldr (fun '(fullPath, isLink) onlySymlinks =>
           if (isLink : bool) then
             {[ normalizePath (path_relative (targetDir this) fullPath) ]} ∪ onlySymlinks
           else onlySymlinks)
        ∅ (map_to_list reported).

(** An engine that fails. *)
Definition failing_run (e : js_error)
    : globs -> glob_options -> io (list string * gmap string bool) :=
  fun _ _ w => (Rejected e, w).

Definition host_licenses : Runtime := posix_runtime "/home/user" licenses_run.
Definition host_failing : Runtime :=
  posix_runtime "/home/user" (failing_run (JsError "EACCES: permission denied, scandir '/repo'")).

(** An engine that gives the matches it is made with and reports nothing. *)
Definition fixed_run (matches : list string)
    : globs -> glob_options -> io (list string * gmap string bool) :=
  fun _ options w => (Fulfilled (matches, default ∅ (symlinks options)), w).

Definition host_named : Runtime :=
  posix_runtime "/home/user" (fixed_run ["constructor"; "notes.txt"]).

Definition open_filter : FileSystem := {| targetDir := "/repo"; filterPaths := [""] |}.

Definition denied_world : world :=
  World ∅ {[ "/repo/ENOENT.md" := JsError "EACCES: permission denied, open '/repo/ENOENT.md'" ]} ∅.

(** ** Properties *)

(** *** The host at work *)

Example resolve_relative :
  Posix.resolve "/home/user" ["/repo"; "docs/../LICENSE"] = "/repo/LICENSE".
Proof. reflexivity. Qed.

Example resolve_dot_prefixed :
  Posix.resolve "/home/user" ["/repo"; "./link.txt"] = "/repo/link.txt".
Proof. reflexivity. Qed.

Example resolve_from_working_directory :
  Posix.resolve "/home/user" ["."; "a.txt"] = "/home/user/a.txt".
Proof. reflexivity. Qed.

(** The engine in [/repo], where [link.txt] is a symbolic link: under
    [**] the link is reported, and [findAllFiles] removes the relative
    match; without [**] nothing is reported, and the link is returned. *)
Example findAllFiles_relative_pattern :
  findAllFiles (rt := host_glob) repo (Pattern "./**/*.txt") None linked_world
  = (Fulfilled ["notes.txt"], linked_world).
Proof. vm_compute. reflexivity. Qed.

Example findAllFiles_unreported_link :
  Glob.run "/home/user" (Pattern "*.txt")
    {| cwd := "/repo"; nocase := false; nodir := true; symlinks := Some ∅ |} linked_world
  = (Fulfilled (["notes.txt"; "link.txt"], ∅), linked_world)
  /\ findAllFiles (rt := host_glob) repo (Pattern "*.txt") None linked_world
     = (Fulfilled ["notes.txt"; "link.txt"], linked_world).
Proof. split; vm_compute; reflexivity. Qed.

(** Symbolic links and the content calls: a write goes to the file the
    link leads to, and a link that leads nowhere does not exist and can be
    removed. *)
Example setFileContents_through_link :
  setFileContents (rt := host) repo "link.txt" "new" linked_world
  = (Fulfilled tt,
     World (<["/repo/link.txt" := Link "/repo/notes.txt"]>
              (<["/repo/notes.txt" := File "new"]> {[ "/repo" := Dir ]})) ∅ ∅).
Proof. vm_compute. reflexivity. Qed.

Example removeFile_dangling_link :
  relativeFileExists (rt := host) repo "link.txt" dangling_world
  = (Fulfilled false, dangling_world)
  /\ removeFile (rt := host) repo "link.txt" dangling_world = (Fulfilled tt, repo_world).
Proof. split; vm_compute; reflexivity. Qed.

Example setFileContents_missing_directory :
  setFileContents (rt := host) repo "docs/notes.txt" "new" repo_world
  = (Rejected (ENOENT "open" "/repo/docs/notes.txt"), repo_world).
Proof. vm_compute. reflexivity. Qed.

Example relative_below : Posix.relative "/home/user" "/repo" "/repo/docs/LICENSE.md" = "docs/LICENSE.md".
Proof. reflexivity. Qed.

Example relative_above : Posix.relative "/home/user" "/repo/docs" "/repo/LICENSE" = "../LICENSE".
Proof. reflexivity. Qed.

Example decode_well_formed : Utf8.decode ("caf" +:+ e_acute) = "caf" +:+ e_acute.
Proof. reflexivity. Qed.

Example decode_cut_short :
  Utf8.decode ("caf" +:+ String "195" EmptyString) = "caf" +:+ Utf8.replacement.
Proof. reflexivity. Qed.

Example decode_stray_continuation :
  Utf8.decode (String "169" newline) = Utf8.replacement +:+ newline.
Proof. reflexivity. Qed.

Example split_join_windows :
  JsString.join "/" (JsString.split "\"%char "docs\LICENSE.md") = "docs/LICENSE.md".
Proof. reflexivity. Qed.

Example lines_of_three : lines_of ("one" +:+ newline +:+ newline +:+ "rest")
                         = ["one" +:+ newline; newline].
Proof. reflexivity. Qed.

(** *** JavaScript strings *)

Lemma append_cons (c : ascii) (s t : string) : String c s +:+ t = String c (s +:+ t).
Proof. reflexivity. Qed.

Lemma append_nil_l (t : string) : "" +:+ t = t.
Proof. reflexivity. Qed.

Lemma append_empty_r (s : string) : s +:+ "" = s.
Proof.
  induction s as [|c s IH]; [reflexivity |].
  rewrite append_cons. f_equal. exact IH.
Qed.

Lemma append_assoc (a b c : string) : (a +:+ b) +:+ c = a +:+ (b +:+ c).
Proof.
  induction a as [|x a IH]; [reflexivity |].
  rewrite !append_cons. f_equal. exact IH.
Qed.

Lemma length_append (a b : string) :
  String.length (a +:+ b) = (String.length a + String.length b)%nat.
Proof.
  induction a as [|x a IH]; [reflexivity |].
  rewrite append_cons. simpl. f_equal. exact IH.
Qed.

Lemma prefix_append (p rest : string) : String.prefix p (p +:+ rest) = true.
Proof.
  induction p as [|c p IH].
  - destruct rest; reflexivity.
  - rewrite append_cons. simpl.
    destruct (ascii_dec c c); [exact IH | congruence].
Qed.

Lemma startsWith_spec (s p : string) :
  JsString.startsWith s p = true <-> exists rest, s = p +:+ rest.
Proof.
  unfold JsString.startsWith. split.
  - revert s. induction p as [|c p IH]; intros s H.
    + exists s. reflexivity.
    + destruct s as [|d s]; simpl in H; [discriminate |].
      destruct (ascii_dec c d) as [->|]; [| discriminate].
      destruct (IH s H) as [rest ->]. exists rest. reflexivity.
  - intros [rest ->]. apply prefix_append.
Qed.

Lemma length_drop (n : nat) (s : string) :
  String.length (JsString.drop n s) = (String.length s - n)%nat.
Proof.
  revert s. induction n as [|n IH]; intros [|c s]; simpl; auto.
Qed.

Lemma drop_drop (m n : nat) (s : string) :
  JsString.drop n (JsString.drop m s) = JsString.drop (m + n) s.
Proof.
  revert s. induction m as [|m IH]; intros s; [reflexivity |].
  destruct s as [|c s]; simpl; [now destruct n | apply IH].
Qed.

Lemma drop_append_length (a b : string) : JsString.drop (String.length a) (a +:+ b) = b.
Proof. induction a as [|c a IH]; [reflexivity | exact IH]. Qed.

Lemma substring_drop (n m : nat) (s : string) :
  String.substring n m s = String.substring 0 m (JsString.drop n s).
Proof.
  revert s. induction n as [|n IH]; intros s; [reflexivity |].
  destruct s as [|c s]; simpl; [now destruct m | apply IH].
Qed.

Lemma substring_0_append (a b : string) : String.substring 0 (String.length a) (a +:+ b) = a.
Proof.
  induction a as [|c a IH]; [now destruct b |].
  rewrite append_cons. simpl. now f_equal.
Qed.

Lemma substring_0_all (s : string) : String.substring 0 (String.length s) s = s.
Proof. rewrite <- (append_empty_r s) at 2. apply substring_0_append. Qed.

Lemma substring_0_ge (m : nat) (s : string) :
  (String.length s <= m)%nat -> String.substring 0 m s = s.
Proof.
  revert s. induction m as [|m IH]; intros [|c s] H; try reflexivity.
  - simpl in H. lia.
  - simpl. f_equal. apply IH. simpl in H. lia.
Qed.

(** A prefix of a text and what is left after it. *)
Lemma substring_0_drop (m : nat) (s : string) :
  String.substring 0 m s +:+ JsString.drop (String.length (String.substring 0 m s)) s = s.
Proof.
  revert s. induction m as [|m IH]; intros [|c s]; try reflexivity.
  simpl. rewrite append_cons. f_equal. apply IH.
Qed.

Lemma substring_0_empty (m : nat) (s : string) :
  (0 < m)%nat -> String.substring 0 m s = EmptyString -> s = EmptyString.
Proof. destruct m; [lia |]. destruct s; [reflexivity | discriminate]. Qed.

Lemma length_substring_0 (m : nat) (s : string) :
  (String.length (String.substring 0 m s) <= m)%nat.
Proof.
  revert s. induction m as [|m IH]; intros [|c s]; simpl; try lia.
  specialize (IH s). lia.
Qed.

Lemma clamp_of_nat (s : string) (i : nat) :
  (i <= String.length s)%nat -> JsString.clamp s (Z.of_nat i) = i.
Proof. intros H. unfold JsString.clamp, JsString.len. lia. Qed.

Lemma substring_of_nat (s : string) (i j : nat) :
  (i <= j)%nat -> (j <= String.length s)%nat ->
  JsString.substring s (Z.of_nat i) (Z.of_nat j) = String.substring i (j - i) s.
Proof.
  intros Hij Hj. unfold JsString.substring.
  rewrite !clamp_of_nat by lia.
  now rewrite Nat.min_l, Nat.max_r by lia.
Qed.

Lemma substring_from_of_nat (s : string) (i : nat) :
  (i <= String.length s)%nat ->
  JsString.substring_from s (Z.of_nat i) = JsString.drop i s.
Proof.
  intros H. unfold JsString.substring_from, JsString.len.
  rewrite substring_of_nat by lia.
  rewrite substring_drop, <- length_drop. apply substring_0_all.
Qed.

Lemma indexOf_of_nat (s pat : string) (i : nat) :
  (i <= String.length s)%nat ->
  JsString.indexOf s pat (Z.of_nat i) = JsString.search pat (JsString.drop i s) (Z.of_nat i).
Proof. intros H. unfold JsString.indexOf. now rewrite clamp_of_nat. Qed.

(** *** Lines *)

Lemma prefix_newline (t : string) :
  String.prefix newline t
  = match t with
    | String c _ => Ascii.eqb c "010"
    | EmptyString => false
    end.
Proof.
  destruct t as [|c t]; [reflexivity |].
  unfold newline. cbn [String.prefix].
  destruct (ascii_dec "010" c) as [<- | Hne].
  - now destruct t.
  - symmetry. apply Ascii.eqb_neq. congruence.
Qed.

Lemma search_cut (t : string) (i : Z) :
  JsString.search newline t i
  = match cut t with
    | Some (l, _) => i + JsString.len l
    | None => -1
    end.
Proof.
  revert i. induction t as [|c t IH]; intros i.
  - reflexivity.
  - cbn [JsString.search cut]. rewrite prefix_newline.
    destruct (Ascii.eqb c "010").
    + unfold JsString.len. simpl. lia.
    + rewrite IH. destruct (cut t) as [[l r]|]; [| reflexivity].
      unfold JsString.len. simpl String.length. lia.
Qed.

Lemma cut_Some (t l r : string) : cut t = Some (l, r) -> t = l +:+ (newline +:+ r).
Proof.
  revert l. induction t as [|c t IH]; intros l H; [discriminate |].
  cbn [cut] in H. destruct (Ascii.eqb c "010") eqn:Ec.
  - injection H as <- <-. apply Ascii.eqb_eq in Ec as ->. reflexivity.
  - destruct (cut t) as [[l' r']|]; [| discriminate].
    injection H as <- <-. rewrite append_cons. f_equal. now apply IH.
Qed.

Lemma split_lines_cut (t : string) :
  split_lines t
  = match cut t with
    | None => ([], t)
    | Some (l, r) => let (ls, tl) := split_lines r in ((l +:+ newline) :: ls, tl)
    end.
Proof.
  induction t as [|c t IH]; [reflexivity |].
  cbn [split_lines cut]. destruct (Ascii.eqb c "010").
  - destruct (split_lines t) as [ls tl]. reflexivity.
  - rewrite IH. destruct (cut t) as [[l r]|]; [| reflexivity].
    destruct (split_lines r) as [ls tl]. reflexivity.
Qed.

Lemma split_lines_app (a b : string) :
  split_lines (a +:+ b)
  = (lines_of a ++ lines_of (unterminated a +:+ b), unterminated (unterminated a +:+ b)).
Proof.
  unfold lines_of, unterminated.
  induction a as [|c a IH].
  - rewrite !append_nil_l. cbn [split_lines fst snd app].
    now destruct (split_lines b).
  - rewrite append_cons. cbn [split_lines]. rewrite IH.
    destruct (split_lines a) as [la ta]. cbn [fst snd].
    destruct (Ascii.eqb c "010") eqn:Ec.
    + reflexivity.
    + destruct la as [|l la]; cbn [fst snd app].
      * rewrite append_cons. cbn [split_lines]. rewrite Ec.
        destruct (split_lines (ta +:+ b)) as [lb tb]. cbn [fst snd].
        now destruct lb.
      * reflexivity.
Qed.

Lemma lines_of_app (a b : string) :
  lines_of (a +:+ b) = lines_of a ++ lines_of (unterminated a +:+ b).
Proof. unfold lines_of at 1. now rewrite split_lines_app. Qed.

(** A text is its lines followed by its unterminated rest. *)
Lemma lines_unterminated (t : string) : t = concat_lines (lines_of t) +:+ unterminated t.
Proof.
  unfold lines_of, unterminated.
  induction t as [|c t IH]; [reflexivity |].
  cbn [split_lines]. destruct (split_lines t) as [ls tl]. cbn [fst snd] in IH.
  destruct (Ascii.eqb c "010") eqn:Ec.
  - apply Ascii.eqb_eq in Ec as ->. cbn [fst snd concat_lines].
    unfold newline. rewrite append_cons, append_nil_l, append_cons. now f_equal.
  - destruct ls as [|l ls]; cbn [fst snd concat_lines] in *.
    + rewrite append_nil_l in *. now f_equal.
    + rewrite !append_cons. now f_equal.
Qed.

(** The unterminated rest holds no line feed. *)
Lemma cut_unterminated (t : string) : cut (unterminated t) = None.
Proof.
  unfold unterminated.
  induction t as [|c t IH]; [reflexivity |].
  cbn [split_lines]. destruct (split_lines t) as [ls tl]. cbn [snd] in IH.
  destruct (Ascii.eqb c "010") eqn:Ec; [exact IH |].
  destruct ls as [|l ls]; cbn [snd]; [| exact IH].
  cbn [cut]. now rewrite Ec, IH.
Qed.

Lemma cut_None_lines (t : string) : cut t = None -> lines_of t = [] /\ unterminated t = t.
Proof.
  intros H. unfold lines_of, unterminated. rewrite split_lines_cut, H. now split.
Qed.

Lemma concat_lines_app (a b : list string) :
  concat_lines (a ++ b) = concat_lines a +:+ concat_lines b.
Proof.
  induction a as [|l a IH]; [reflexivity |].
  cbn [app concat_lines]. now rewrite IH, append_assoc.
Qed.

(** Every line ends with a line feed. *)
Lemma lines_of_terminated (t l : string) :
  In l (lines_of t) -> exists body, l = body +:+ newline.
Proof.
  unfold lines_of. revert l.
  induction t as [|c t IH]; intros l H; [destruct H |].
  cbn [split_lines] in H. destruct (split_lines t) as [ls tl]. cbn [fst] in IH.
  destruct (Ascii.eqb c "010").
  - destruct H as [<- | H]; [now exists EmptyString | now apply IH].
  - destruct ls as [|l0 ls]; [destruct H |].
    destruct H as [<- | H].
    + destruct (IH l0 (or_introl eq_refl)) as [body ->].
      exists (String c body). reflexivity.
    + apply IH. now right.
Qed.

Lemma length_lines_of (t : string) : (length (lines_of t) <= String.length t)%nat.
Proof.
  unfold lines_of. induction t as [|c t IH]; [reflexivity |].
  cbn [split_lines]. destruct (split_lines t) as [ls tl]. cbn [fst] in IH.
  destruct (Ascii.eqb c "010"); [simpl; lia |].
  destruct ls; simpl in *; lia.
Qed.

(** *** The inner loop of [getFileLines] *)

Lemma scan_correct (fuel : nat) (leftOver : string) (lineCount : Z) (i : nat)
    (lineNumber : Z) (lines : string) :
  (i <= String.length leftOver)%nat ->
  (length (lines_of (JsString.drop i leftOver)) < fuel)%nat ->
  scan fuel leftOver lineCount (Z.of_nat i) lineNumber lines
  = Some (scan_result (JsString.drop i leftOver) lineCount (Z.of_nat i) lineNumber lines).
Proof.
  revert i lineNumber lines.
  induction fuel as [|fuel IH]; intros i lineNumber lines Hi Hfuel; [lia |].
  cbn [scan]. rewrite indexOf_of_nat, search_cut by exact Hi.
  unfold scan_result, lines_of in *. rewrite split_lines_cut in *.
  destruct (cut (JsString.drop i leftOver)) as [[l r]|] eqn:Hcut.
  - pose proof (cut_Some _ _ _ Hcut) as Hdrop.
    assert (Hlen : String.length leftOver
                   = (i + String.length l + 1 + String.length r)%nat).
    { pose proof (length_drop i leftOver) as Hd. rewrite Hdrop in Hd.
      rewrite !length_append in Hd. unfold newline in Hd. simpl in Hd. lia. }
    assert (Hsub : JsString.substring leftOver (Z.of_nat i) (Z.of_nat i + JsString.len l) = l).
    { unfold JsString.len. rewrite <- Nat2Z.inj_add.
      rewrite substring_of_nat by lia.
      rewrite substring_drop, Hdrop.
      replace (i + String.length l - i)%nat with (String.length l) by lia.
      apply substring_0_append. }
    assert (Hrest : JsString.drop (i + String.length l + 1) leftOver = r).
    { rewrite <- drop_drop, <- drop_drop, Hdrop, drop_append_length. reflexivity. }
    destruct (Z.eqb_spec (Z.of_nat i + JsString.len l) (-1)) as [Habs | _];
      [unfold JsString.len in Habs; lia |].
    rewrite Hsub.
    destruct (split_lines r) as [ls tl] eqn:Hr. cbn [fst length] in *.
    destruct (Z.geb_spec (lineNumber + 1) lineCount) as [Hge | Hlt].
    + replace (lines_wanted lineCount lineNumber) with 1%nat
        by (unfold lines_wanted; lia).
      cbn [Nat.leb firstn concat_lines]. now rewrite append_empty_r.
    + replace (Z.of_nat i + JsString.len l + 1)
        with (Z.of_nat (i + String.length l + 1)) by (unfold JsString.len; lia).
      rewrite IH by (rewrite ?Hrest, ?Hr; cbn [fst]; lia).
      rewrite Hrest, Hr. cbn [fst].
      replace (lines_wanted lineCount lineNumber)
        with (S (lines_wanted lineCount (lineNumber + 1)))
        by (unfold lines_wanted; lia).
      cbn [Nat.leb firstn concat_lines].
      destruct (lines_wanted lineCount (lineNumber + 1) <=? length ls)%nat.
      * now rewrite !append_assoc.
      * f_equal. f_equal.
        -- unfold JsString.len. rewrite !length_append. unfold newline. simpl. lia.
        -- lia.
        -- now rewrite !append_assoc.
  - cbn [fst length concat_lines Z.eqb].
    replace (lines_wanted lineCount lineNumber <=? 0)%nat with false
      by (symmetry; apply Nat.leb_gt; unfold lines_wanted; lia).
    rewrite append_empty_r. unfold JsString.len. simpl. f_equal. f_equal; lia.
Qed.

(** From the start of the buffer, with the iterations [read_loop] grants. *)
Lemma scan_from_start (leftOver : string) (lineCount lineNumber : Z) (lines : string) :
  scan (S (String.length leftOver)) leftOver lineCount 0 lineNumber lines
  = Some (scan_result leftOver lineCount 0 lineNumber lines).
Proof.
  apply (scan_correct (S (String.length leftOver)) leftOver lineCount 0).
  - lia.
  - pose proof (length_lines_of leftOver). simpl. lia.
Qed.

(** *** The outer loop of [getFileLines] *)

Lemma length_alloc (n : nat) : String.length (fs.alloc n) = n.
Proof. induction n; simpl; auto. Qed.

Lemma bufferSize_pos : (0 < bufferSize)%nat.
Proof. unfold bufferSize. lia. Qed.

Lemma set_fds_set_fds (w : world) (a b : gmap nat FileHandle) :
  set_fds (set_fds w a) b = set_fds w b.
Proof. reflexivity. Qed.

Lemma fds_set_fds (w : world) (a : gmap nat FileHandle) : fds (set_fds w a) = a.
Proof. reflexivity. Qed.

Lemma decode_chunks_fuel (size : nat) (fuel fuel' : nat) (bytes : string) :
  (0 < size)%nat ->
  (String.length bytes <= fuel)%nat -> (String.length bytes <= fuel')%nat ->
  decode_chunks fuel size bytes = decode_chunks fuel' size bytes.
Proof.
  intros Hsize. revert fuel' bytes.
  induction fuel as [|fuel IH]; intros fuel' bytes Hf Hf'.
  - destruct bytes; [| simpl in Hf; lia]. destruct fuel'; [reflexivity |].
    cbn [decode_chunks]. now destruct size.
  - destruct fuel' as [|fuel'].
    + destruct bytes; [| simpl in Hf'; lia]. cbn [decode_chunks]. now destruct size.
    + cbn [decode_chunks].
      destruct (String.substring 0 size bytes) as [|x chunk] eqn:Hc; [reflexivity |].
      f_equal. apply IH; rewrite length_drop; simpl String.length; lia.
Qed.

(** One read further in the text of a file. *)
Lemma decode_chunks_step (size : nat) (bytes : string) :
  (0 < size)%nat ->
  String.substring 0 size bytes <> EmptyString ->
  decode_chunks (String.length bytes) size bytes
  = Utf8.decode (String.substring 0 size bytes) +:+
    decode_chunks (String.length (JsString.drop (String.length (String.substring 0 size bytes)) bytes))
                  size (JsString.drop (String.length (String.substring 0 size bytes)) bytes).
Proof.
  intros Hsize Hne.
  destruct bytes as [|b bytes]; [now destruct size |].
  cbn [String.length decode_chunks].
  destruct (String.substring 0 size (String b bytes)) as [|x chunk] eqn:Hc; [congruence |].
  f_equal. apply decode_chunks_fuel; [exact Hsize | | lia].
  rewrite length_drop. simpl. lia.
Qed.

Lemma decode_chunks_empty (fuel size : nat) : decode_chunks fuel size EmptyString = EmptyString.
Proof. destruct fuel; [reflexivity |]. cbn [decode_chunks]. now destruct size. Qed.

Lemma read_loop_file (fuel fd : nat) (buffer : string) (lineCount : Z)
    (leftOver lines : string) (lineNumber : Z) (w : world) (c : string) (pos : nat) :
  fds w !! fd = Some {| h_node := File c; h_pos := pos |} ->
  (pos <= String.length c)%nat ->
  cut leftOver = None ->
  String.length buffer = bufferSize ->
  let unread := JsString.drop pos c in
  let ls := lines_of (leftOver +:+ decode_chunks (String.length unread) bufferSize unread) in
  let wanted := lines_wanted lineCount lineNumber in
  match read_loop fuel fd buffer lineCount leftOver lines lineNumber w with
  | None => (fuel <= String.length c - pos)%nat
  | Some r =>
      r = if (wanted <=? length ls)%nat
          then (Normal (LoopReturn (lines +:+ concat_lines (firstn wanted ls))),
                set_fds w (delete fd (fds w)))
          else (Normal (LoopBreak (lines +:+ concat_lines ls)),
                set_fds w (<[fd := {| h_node := File c; h_pos := String.length c |}]> (fds w)))
  end.
Proof.
  revert buffer leftOver lines lineNumber w pos.
  induction fuel as [|fuel IH]; intros buffer leftOver lines lineNumber w pos Hfd Hpos Hcut Hbuf;
    [simpl; lia |].
  cbn [read_loop]. unfold bind at 1, call at 1, fs.read. rewrite Hfd. cbn [h_node h_pos].
  set (chunk := String.substring pos bufferSize c).
  cbn zeta. unfold await, ret.
  assert (Hchunk : chunk = String.substring 0 bufferSize (JsString.drop pos c))
    by (subst chunk; apply substring_drop).
  assert (Hdrop : JsString.drop pos c
                  = chunk +:+ JsString.drop (pos + String.length chunk) c).
  { rewrite Hchunk, <- drop_drop. symmetry. apply substring_0_drop. }
  assert (Hn : (String.length chunk <= bufferSize)%nat).
  { rewrite Hchunk. apply length_substring_0. }
  assert (HposN : (pos + String.length chunk <= String.length c)%nat).
  { pose proof (length_drop pos c) as Hd. rewrite Hdrop, length_append in Hd. lia. }
  assert (Hstr : fs.toString (chunk +:+ JsString.drop (String.length chunk) buffer)
                   (Z.of_nat (String.length chunk)) = Utf8.decode chunk).
  { unfold fs.toString. rewrite Nat2Z.id. f_equal. apply substring_0_append. }
  rewrite Hstr. clear Hstr.
  destruct (Z.eqb_spec (Z.of_nat (String.length chunk)) 0) as [Hz | Hnz].
  - assert (Hempty : chunk = EmptyString) by (destruct chunk; [reflexivity | discriminate]).
    assert (Hend : JsString.drop pos c = EmptyString).
    { apply (substring_0_empty bufferSize); [apply bufferSize_pos |].
      now rewrite <- Hchunk. }
    assert (pos = String.length c).
    { pose proof (length_drop pos c) as Hd. rewrite Hend in Hd. simpl in Hd. lia. }
    rewrite Hend, decode_chunks_empty, append_empty_r.
    destruct (cut_None_lines _ Hcut) as [-> _].
    replace (lines_wanted lineCount lineNumber <=? length [])%nat with false
      by (symmetry; apply Nat.leb_gt; unfold lines_wanted; simpl; lia).
    cbn [concat_lines]. rewrite append_empty_r, Hempty. simpl String.length.
    rewrite Nat.add_0_r. now subst pos.
  - rewrite scan_from_start. unfold scan_result.
    set (text := leftOver +:+ Utf8.decode chunk).
    rewrite decode_chunks_step;
      [| apply bufferSize_pos | rewrite <- Hchunk; now destruct chunk].
    rewrite <- Hchunk, drop_drop, <- append_assoc. fold text.
    rewrite (lines_of_app text).
    set (more := lines_of (unterminated text +:+ _)).
    set (w1 := set_fds w _).
    assert (Hfd1 : fds w1 !! fd
                   = Some {| h_node := File c; h_pos := pos + String.length chunk |}).
    { subst w1. rewrite fds_set_fds. apply lookup_insert_eq. }
    rewrite length_app.
    destruct (Nat.leb_spec (lines_wanted lineCount lineNumber) (length (lines_of text)))
      as [Hle | Hgt].
    + replace (lines_wanted lineCount lineNumber <=? length (lines_of text) + length more)%nat
        with true by (symmetry; apply Nat.leb_le; lia).
      unfold bind, call, fs.close. rewrite Hfd1. f_equal. f_equal.
      * rewrite firstn_app.
        replace (lines_wanted lineCount lineNumber - length (lines_of text))%nat with O by lia.
        now rewrite firstn_O, app_nil_r.
      * subst w1. rewrite set_fds_set_fds, fds_set_fds. f_equal. apply delete_insert_eq.
    + assert (Hleft : JsString.substring_from text
                        (0 + JsString.len (concat_lines (lines_of text)))
                      = unterminated text).
      { unfold JsString.len. rewrite Z.add_0_l.
        pose proof (lines_unterminated text) as Ht.
        rewrite substring_from_of_nat by (rewrite Ht at 2; rewrite length_append; lia).
        rewrite Ht at 2. apply drop_append_length. }
      rewrite Hleft.
      specialize (IH (chunk +:+ JsString.drop (String.length chunk) buffer)
                     (unterminated text)
                     (lines +:+ concat_lines (lines_of text))
                     (lineNumber + Z.of_nat (length (lines_of text)))
                     w1 (pos + String.length chunk)%nat Hfd1 HposN
                     (cut_unterminated text)).
      cbv zeta in IH. fold more in IH.
      assert (Hbuf1 : String.length (chunk +:+ JsString.drop (String.length chunk) buffer)
                      = bufferSize) by (rewrite length_append, length_drop; lia).
      specialize (IH Hbuf1).
      destruct (read_loop fuel fd _ lineCount (unterminated text) _ _ w1) as [r|].
      * rewrite IH.
        replace (lines_wanted lineCount (lineNumber + Z.of_nat (length (lines_of text))))
          with (lines_wanted lineCount lineNumber - length (lines_of text))%nat
          by (unfold lines_wanted in *; lia).
        replace (lines_wanted lineCount lineNumber <=? length (lines_of text) + length more)%nat
          with (lines_wanted lineCount lineNumber - length (lines_of text) <=? length more)%nat
          by (apply eq_true_iff_eq; rewrite !Nat.leb_le; lia).
        subst w1. rewrite !set_fds_set_fds, !fds_set_fds.
        destruct (lines_wanted lineCount lineNumber - length (lines_of text) <=? length more)%nat.
        -- rewrite delete_insert_eq, firstn_app.
           rewrite (firstn_all2 (n:=lines_wanted lineCount lineNumber) (lines_of text)) by lia.
           now rewrite concat_lines_app, append_assoc.
        -- rewrite insert_insert_eq.
           now rewrite concat_lines_app, append_assoc.
      * lia.
Qed.

(** *** The tree and its links *)

Lemma entries_lookup (w : world) (path : string) :
  entries w !! path = names w !! path ≫= (fun _ => found (names w) path).
Proof. unfold entries. apply map_lookup_imap. Qed.

(** Following links either stays where it is or starts from a link. *)
Lemma follow_start (tree : gmap string node) (hops : nat) (path final : string) :
  follow tree hops path = Some final ->
  path = final \/ exists target, tree !! path = Some (Link target).
Proof.
  destruct hops; cbn [follow];
    destruct (tree !! path) as [[c| |target|c]|]; intros H;
    try (left; congruence); right; now exists target.
Qed.

(** Where the links lead there is no link. *)
Lemma follow_final (tree : gmap string node) (hops : nat) (path final : string) :
  follow tree hops path = Some final ->
  forall target, tree !! final <> Some (Link target).
Proof.
  revert path. induction hops as [|hops IH]; intros path; cbn [follow];
    destruct (tree !! path) as [[c| |target|c]|] eqn:E; intros H target';
    try (injection H as <-; rewrite E; discriminate);
    [discriminate | now apply (IH target)].
Qed.

(** Storing something that is no link where the links lead leaves them
    leading there. *)
Lemma follow_insert (tree : gmap string node) (hops : nat) (path final : string) (v : node) :
  follow tree hops path = Some final ->
  (forall target, v <> Link target) ->
  follow (<[final := v]> tree) hops path = Some final.
Proof.
  intros H Hv. revert path H.
  induction hops as [|hops IH]; intros path; cbn [follow];
    (destruct (decide (path = final)) as [-> | Hne];
     [ rewrite lookup_insert_eq; intros _;
       destruct v as [c| |target|c]; try reflexivity; now destruct (Hv target)
     | rewrite lookup_insert_ne by congruence;
       destruct (tree !! path) as [[c| |target|c]|]; try (intros H; exact H) ]).
  apply IH.
Qed.

(** What a path leads to once something that is no link is stored where
    its links lead. *)
Lemma entries_stored (w : world) (path final : string) (v : node) :
  follow (names w) max_links path = Some final ->
  (forall target, v <> Link target) ->
  entries (set_names w (<[final := v]> (names w))) !! path = Some v.
Proof.
  intros H Hv. rewrite entries_lookup. cbn [names set_names].
  assert (Hfound : found (<[final := v]> (names w)) path = Some v).
  { unfold found. rewrite (follow_insert _ _ _ _ _ H Hv). apply lookup_insert_eq. }
  destruct (follow_start _ _ _ _ H) as [-> | [target Hlink]].
  - rewrite lookup_insert_eq. exact Hfound.
  - destruct (decide (path = final)) as [-> | Hne].
    + rewrite lookup_insert_eq. exact Hfound.
    + rewrite lookup_insert_ne by congruence. rewrite Hlink. exact Hfound.
Qed.

(** What [writeFile] leaves where it succeeds: the contents, in a file
    that the path then leads to. *)
Lemma writeFile_fulfilled (path contents : string) (w w' : world) :
  fs.writeFile path contents w = (Fulfilled tt, w') ->
  faults w' = faults w /\ fds w' = fds w /\ faults w !! path = None /\
  (entries w' !! path = Some (File contents) \/
   entries w' !! path = Some (WriteOnly contents)).
Proof.
  unfold fs.writeFile.
  destruct (faults w !! path) eqn:Hf; [discriminate |].
  destruct (follow (names w) max_links path) as [final|] eqn:Hfollow; [| discriminate].
  destruct (names w !! final) as [[c| |target|c]|]; try discriminate.
  - intros [= <-]. repeat split. left. now apply entries_stored.
  - intros [= <-]. repeat split. right. now apply entries_stored.
  - destruct (fs.is_directory w (fs.dirname final)); [| discriminate].
    intros [= <-]. repeat split. left. now apply entries_stored.
Qed.

(** What [unlink] leaves where it succeeds: nothing under the name. *)
Lemma unlink_fulfilled (path : string) (w w' : world) :
  fs.unlink path w = (Fulfilled tt, w') ->
  faults w' = faults w /\ fds w' = fds w /\ faults w !! path = None /\
  entries w' !! path = None.
Proof.
  unfold fs.unlink.
  destruct (faults w !! path) eqn:Hf; [discriminate |].
  destruct (names w !! path) as [[c| |target|c]|]; try discriminate;
    intros [= <-]; repeat split;
    rewrite entries_lookup; cbn [names set_names]; now rewrite lookup_delete_eq.
Qed.

Section Properties.

Context {rt : Runtime}.

(** *** Inclusion filter *)

(** C2. [shouldInclude] holds of a path exactly when the filter list is
    empty or the canonical relative form of the path (resolved against
    [targetDir], made relative again, normalized) starts with a normalized
    entry of the filter list. *)
Theorem shouldInclude_iff_prefix (this : FileSystem) (P : string) :
  shouldInclude this P = true <->
  filterPaths this = [] \/
  exists f rest,
    In f (filterPaths this) /\
    normalizePath (path_relative (targetDir this) (path_resolve (targetDir this) P))
    = normalizePath f +:+ rest.
Proof.
  unfold shouldInclude.
  destruct (filterPaths this) as [|f0 fs] eqn:E.
  - simpl. split; [intros _; now left | reflexivity].
  - cbn [length Nat.eqb].
    rewrite existsb_exists. split.
    + intros (p & Hin & Hp). right.
      apply in_map_iff in Hin as (f & <- & Hf).
      apply startsWith_spec in Hp as [rest Hrest].
      exists f, rest. split; assumption.
    + intros [Hnil | (f & rest & Hf & Heq)]; [discriminate |].
      exists (normalizePath f). split.
      * apply in_map_iff. exists f. split; [reflexivity | assumption].
      * apply startsWith_spec. exists rest. exact Heq.
Qed.

(** *** Existence checks *)

(** C7. [fileExists] always fulfils with a boolean, [true] when the access
    probe succeeds and [false] whatever error it fails with, and
    [relativeFileExists] is [fileExists] at the path resolved against
    [targetDir]. *)
Theorem fileExists_total (this : FileSystem) (file : string) (w : world) :
  fileExists file w
  = (Fulfilled (match fst (fs.access file w) with
                | Fulfilled _ => true
                | Rejected _ => false
                end), w)
  /\ relativeFileExists this file w
     = fileExists (path_resolve (targetDir this) file) w.
Proof.
  split; [| reflexivity].
  unfold fileExists, fs.access.
  destruct (fs.probe "access" file w); reflexivity.
Qed.

(** *** Content access *)

(** C6. [getFileContents] always fulfils: with the text when [readFile]
    succeeds, with [undefined] whatever error [readFile] fails with. *)
Theorem getFileContents_total (this : FileSystem) (P : string) (w : world) :
  getFileContents this P w
  = (Fulfilled (match fst (fs.readFile (path_resolve (targetDir this) P) w) with
                | Fulfilled text => Some text
                | Rejected _ => None
                end), w).
Proof.
  unfold getFileContents, async, try_catch, bind, call, await, return_value, ret, throw,
    fs.readFile.
  destruct (faults w !! _); [reflexivity |].
  destruct (entries w !! _) as [[c| |target|c]|]; reflexivity.
Qed.

(** C9. For a text that is valid UTF-8 (decoding its bytes gives them
    back): once [setFileContents] has succeeded with it, if the path then
    leads to a regular file that the process may read, [getFileContents]
    at the same path returns the text. *)
Theorem set_then_get_readable (this : FileSystem) (P T : string) (w w' : world) :
  Utf8.decode T = T ->
  setFileContents this P T w = (Fulfilled tt, w') ->
  (exists c, entries w' !! path_resolve (targetDir this) P = Some (File c)) ->
  getFileContents this P w' = (Fulfilled (Some T), w').
Proof.
  intros Hvalid Hset [c Hfile].
  unfold setFileContents, async, call in Hset.
  set (file := path_resolve (targetDir this) P) in *.
  assert (Hwrite : fs.writeFile file T w = (Fulfilled tt, w'))
    by (destruct (fs.writeFile file T w) as [p w1]; congruence).
  apply writeFile_fulfilled in Hwrite as (Hfaults & _ & Hf & Hstored).
  assert (Hc : c = T) by (destruct Hstored as [H | H]; rewrite H in Hfile; congruence).
  subst c.
  unfold getFileContents, async, try_catch, bind, call, await, fs.readFile.
  fold file. rewrite Hfaults, Hf, Hfile. cbn. now rewrite Hvalid.
Qed.

(** *** Binary detection *)

(** X21. The promise [isBinaryFile] returns is the detector's own. *)
Lemma isBinaryFile_adopts (this : FileSystem) (P : string) (w : world) :
  isBinaryFile this P w = isbinaryfile (path_resolve (targetDir this) P) w.
Proof.
  unfold isBinaryFile, async, try_catch, bind, call, ret.
  destruct (isbinaryfile _ w) as [p w']. reflexivity.
Qed.

(** *** Discovery *)

(** C8. [findFirst] fulfils with the first element of what [findAll]
    fulfils with, and with [undefined] when that is empty; [findFirstFile]
    does the same over [findAllFiles]. *)
Theorem findFirst_head (this : FileSystem) (g : globs) (nocase : option bool) (w : world) :
  findFirst this g nocase w
  = (match fst (findAll this g nocase w) with
     | Fulfilled (first :: _) => Fulfilled (Some first)
     | Fulfilled [] => Fulfilled None
     | Rejected e => Rejected e
     end, snd (findAll this g nocase w))
  /\ findFirstFile this g nocase w
     = (match fst (findAllFiles this g nocase w) with
        | Fulfilled (first :: _) => Fulfilled (Some first)
        | Fulfilled [] => Fulfilled None
        | Rejected e => Rejected e
        end, snd (findAllFiles this g nocase w)).
Proof.
  split.
  - unfold findFirst, async at 1, bind, call, await.
    destruct (findAll this g nocase w) as [[[|x l]|e] w']; reflexivity.
  - unfold findFirstFile, async at 1, bind, call, await.
    destruct (findAllFiles this g nocase w) as [[[|x l]|e] w']; reflexivity.
Qed.

(** The own properties of [onlySymlinks]: the normalized relative forms
    of the paths reported as links. *)
Lemma elem_of_onlySymlinks (f : string -> string) (l : list (string * bool)) (key : string) :
  key ∈ foldr (fun '(fullPath, isLink) (acc : gset string) =>
                 if (isLink : bool) then {[ f fullPath ]} ∪ acc else acc) ∅ l
  <-> exists fullPath, (fullPath, true) ∈ l /\ key = f fullPath.
Proof.
  induction l as [|[k b] l IH]; simpl.
  - split; [set_solver |]. intros (x & Hx & _). inversion Hx.
  - destruct b.
    + rewrite elem_of_union, elem_of_singleton, IH. split.
      * intros [-> | (x & Hx & ->)]; [exists k | exists x]; split; auto; constructor.
        assumption.
      * intros (x & Hx & ->). apply elem_of_cons in Hx as [[= ->] | Hx]; eauto.
    + rewrite IH. split.
      * intros (x & Hx & ->). exists x. split; [now constructor | reflexivity].
      * intros (x & Hx & ->). apply elem_of_cons in Hx as [[=] | Hx]; eauto.
Qed.

(** What [findAllFiles] returns when the expansion succeeds: matches of the
    expansion, none of which has the normalized form of the normalized
    relative path of an entry reported as a link. *)
Lemma findAllFiles_drops_reported (this : FileSystem) (g : globs) (nocase : option bool)
    (w w' : world) (matches : list string) (reported : gmap string bool) :
  glob this g {| cwd := targetDir this; nocase := negb (negb (truthy nocase));
                 nodir := true; symlinks := Some ∅ |} w
  = (Fulfilled (matches, reported), w') ->
  exists result,
    findAllFiles this g nocase w = (Fulfilled result, w') /\
    forall p, In p result ->
      In p matches /\
      forall fullPath, reported !! fullPath = Some true ->
        normalizePath (path_relative (targetDir this) fullPath) <> normalizePath p.
Proof.
  intros Hglob. eexists. split.
  - unfold findAllFiles, async at 1, bind, call, await. rewrite Hglob. reflexivity.
  - intros p Hp. apply filter_In in Hp as [Hin Hkeep]. split; [exact Hin |].
    intros fullPath Hrep Heq. simpl in Hkeep.
    apply negb_true_iff, orb_false_iff in Hkeep as [Hown _].
    apply bool_decide_eq_false in Hown. apply Hown.
    apply elem_of_onlySymlinks. exists fullPath. split; [| now rewrite Heq].
    apply elem_of_map_to_list. exact Hrep.
Qed.

(** X22. When a match is in canonical form, that is when making its resolved
    absolute form relative to [targetDir] gives the match back, it is not
    returned if its resolved absolute form was reported as a link. *)
Lemma findAllFiles_no_canonical_link (this : FileSystem) (g : globs) (nocase : option bool)
    (w w' : world) (matches : list string) (reported : gmap string bool)
    (result : list string) (p : string) :
  glob this g {| cwd := targetDir this; nocase := negb (negb (truthy nocase));
                 nodir := true; symlinks := Some ∅ |} w
  = (Fulfilled (matches, reported), w') ->
  findAllFiles this g nocase w = (Fulfilled result, w') ->
  In p result ->
  path_relative (targetDir this) (path_resolve (targetDir this) p) = p ->
  reported !! path_resolve (targetDir this) p <> Some true.
Proof.
  intros Hglob Hres Hin Hcanon Hrep.
  destruct (findAllFiles_drops_reported this g nocase w w' matches reported Hglob)
    as (result' & Hres' & Hall).
  rewrite Hres in Hres'. injection Hres' as <-.
  destruct (Hall p Hin) as [_ Hne].
  apply (Hne _ Hrep). now rewrite Hcanon.
Qed.

End Properties.

Lemma includes_prefix (s sub : string) :
  String.prefix sub s = true -> JsString.includes s sub = true.
Proof. intros H. destruct s; cbn [JsString.includes]; now rewrite H. Qed.

Lemma ENOENT_message (syscall path : string) :
  JsString.includes (message (ENOENT syscall path)) "ENOENT" = true.
Proof. apply includes_prefix. apply prefix_append. Qed.

Lemma set_fds_same (w : world) : set_fds w (fds w) = w.
Proof. now destruct w. Qed.

Lemma In_firstn {A} (n : nat) (l : list A) (x : A) : In x (firstn n l) -> In x l.
Proof.
  revert l. induction n as [|n IH]; intros [|y l] H; simpl in *; try contradiction.
  destruct H as [-> | H]; [now left | right; now apply IH].
Qed.

Lemma concat_lines_terminated (ls : list string) :
  (forall l, In l ls -> exists body, l = body +:+ newline) ->
  concat_lines ls = EmptyString \/ exists body, concat_lines ls = body +:+ newline.
Proof.
  induction ls as [|l ls IH]; intros H; [now left |].
  right. cbn [concat_lines].
  destruct IH as [-> | [body ->]].
  - intros l' Hl'. apply H. now right.
  - rewrite append_empty_r. apply H. now left.
  - exists (l +:+ body). now rewrite append_assoc.
Qed.

(** *** Reading a buffer at a time *)

Lemma decode_ascii (bytes : string) : ascii_only bytes = true -> Utf8.decode bytes = bytes.
Proof.
  induction bytes as [|b rest IH]; [reflexivity |].
  cbn [ascii_only Utf8.decode]. intros [Hb Hrest]%andb_true_iff.
  rewrite Hb. f_equal. now apply IH.
Qed.

Lemma ascii_only_substring_0 (m : nat) (bytes : string) :
  ascii_only bytes = true -> ascii_only (String.substring 0 m bytes) = true.
Proof.
  revert bytes. induction m as [|m IH]; intros [|b rest]; try reflexivity.
  cbn [ascii_only String.substring]. intros [Hb Hrest]%andb_true_iff.
  rewrite Hb. now apply IH.
Qed.

Lemma ascii_only_drop (n : nat) (bytes : string) :
  ascii_only bytes = true -> ascii_only (JsString.drop n bytes) = true.
Proof.
  revert bytes. induction n as [|n IH]; intros [|b rest]; try easy.
  cbn [ascii_only JsString.drop]. intros [_ Hrest]%andb_true_iff. now apply IH.
Qed.

Lemma decode_chunks_ascii (fuel size : nat) (bytes : string) :
  (0 < size)%nat -> (String.length bytes <= fuel)%nat ->
  ascii_only bytes = true -> decode_chunks fuel size bytes = bytes.
Proof.
  intros Hsize. revert bytes.
  induction fuel as [|fuel IH]; intros bytes Hfuel Hascii.
  - destruct bytes; [reflexivity | simpl in Hfuel; lia].
  - cbn [decode_chunks].
    destruct (String.substring 0 size bytes) as [|x chunk] eqn:Hc.
    + symmetry. now apply (substring_0_empty size).
    + rewrite <- Hc, decode_ascii by now apply ascii_only_substring_0.
      rewrite IH.
      * apply substring_0_drop.
      * rewrite length_drop, Hc. simpl String.length. lia.
      * now apply ascii_only_drop.
Qed.

(** ASCII text is read as it is. *)
Lemma read_text_ascii (c : string) : ascii_only c = true -> read_text c = c.
Proof. intros H. apply decode_chunks_ascii; [apply bufferSize_pos | lia | exact H]. Qed.

(** So is valid UTF-8 that fits in the buffer. *)
Lemma read_text_short (c : string) :
  (String.length c <= bufferSize)%nat -> Utf8.decode c = c -> read_text c = c.
Proof.
  intros Hlen Hvalid. unfold read_text.
  destruct c as [|b c]; [reflexivity |].
  cbn [String.length decode_chunks].
  assert (Hall : String.substring 0 bufferSize (String b c) = String b c)
    by now apply substring_0_ge.
  rewrite Hall, Hvalid.
  replace (JsString.drop (String.length (String b c)) (String b c)) with EmptyString
    by (symmetry; rewrite <- (append_empty_r (String b c)) at 2; apply drop_append_length).
  now rewrite decode_chunks_empty, append_empty_r.
Qed.

(** *** Decoding and line feeds *)

Lemma between_newline (lo hi : nat) : (11 <= lo)%nat -> Utf8.between lo hi "010" = false.
Proof.
  intros H. unfold Utf8.between. apply andb_false_iff. left.
  apply Nat.leb_gt. change (nat_of_ascii "010") with 10%nat. lia.
Qed.

Lemma second_low_ge (lead : ascii) : (11 <= Utf8.second_low lead)%nat.
Proof.
  unfold Utf8.second_low.
  destruct (Utf8.between 224 224 lead); [lia |].
  destruct (Utf8.between 240 240 lead); lia.
Qed.

(** A line feed ends whatever sequence is under way: decoding goes on
    after it as from the start. *)
Lemma decode_newline_bounded (n : nat) (a b : string) :
  (String.length a <= n)%nat ->
  Utf8.decode (a +:+ String "010" b) = Utf8.decode a +:+ String "010" (Utf8.decode b).
Proof.
  revert a. induction n as [|n IH]; intros a Hn.
  - destruct a; [reflexivity | simpl in Hn; lia].
  - destruct a as [|b0 a1]; [reflexivity |].
    assert (IH1 : forall a', (String.length a' <= String.length a1)%nat ->
              Utf8.decode (a' +:+ String "010" b)
              = Utf8.decode a' +:+ String "010" (Utf8.decode b)).
    { intros a' Ha'. apply IH. simpl in Hn. lia. }
    assert (Hlf : forall tl, Utf8.decode (String "010" tl) = String "010" (Utf8.decode tl))
      by reflexivity.
    pose proof (between_newline (Utf8.second_low b0) (Utf8.second_high b0)
                  (second_low_ge b0)) as Hsecond.
    rewrite append_cons. cbn [Utf8.decode].
    destruct (Utf8.between 0 127 b0).
    { rewrite append_cons. f_equal. apply IH1. lia. }
    destruct (Utf8.between 194 223 b0).
    { destruct a1 as [|b1 a2].
      - rewrite append_nil_l. cbn [Utf8.continuation]. reflexivity.
      - rewrite append_cons. destruct (Utf8.continuation b1).
        + rewrite !append_cons. do 2 f_equal. apply IH1. simpl. lia.
        + rewrite <- append_cons, IH1 by lia. now rewrite append_assoc. }
    destruct (Utf8.between 224 239 b0).
    { destruct a1 as [|b1 a2].
      - rewrite append_nil_l, Hsecond. reflexivity.
      - rewrite append_cons.
        destruct (Utf8.between (Utf8.second_low b0) (Utf8.second_high b0) b1).
        + destruct a2 as [|b2 a3].
          * rewrite append_nil_l. reflexivity.
          * rewrite append_cons. destruct (Utf8.continuation b2).
            -- rewrite !append_cons. do 3 f_equal. apply IH1. simpl. lia.
            -- rewrite <- append_cons, IH1 by (simpl; lia). now rewrite append_assoc.
        + rewrite <- append_cons, IH1 by lia. now rewrite append_assoc. }
    destruct (Utf8.between 240 244 b0).
    { destruct a1 as [|b1 a2].
      - rewrite append_nil_l, Hsecond. reflexivity.
      - rewrite append_cons.
        destruct (Utf8.between (Utf8.second_low b0) (Utf8.second_high b0) b1).
        + destruct a2 as [|b2 a3].
          * rewrite append_nil_l. reflexivity.
          * rewrite append_cons. destruct (Utf8.continuation b2).
            -- destruct a3 as [|b3 a4].
               ++ rewrite append_nil_l. reflexivity.
               ++ rewrite append_cons. destruct (Utf8.continuation b3).
                  ** rewrite !append_cons. do 4 f_equal. apply IH1. simpl. lia.
                  ** rewrite <- append_cons, IH1 by (simpl; lia). now rewrite append_assoc.
            -- rewrite <- append_cons, IH1 by (simpl; lia). now rewrite append_assoc.
        + rewrite <- append_cons, IH1 by lia. now rewrite append_assoc. }
    rewrite IH1 by lia. now rewrite append_assoc.
Qed.

Lemma decode_newline (a b : string) :
  Utf8.decode (a +:+ String "010" b) = Utf8.decode a +:+ String "010" (Utf8.decode b).
Proof. now apply (decode_newline_bounded (String.length a)). Qed.

Lemma length_lines_of_count (t : string) : length (lines_of t) = count_lf t.
Proof.
  unfold lines_of. induction t as [|c t IH]; [reflexivity |].
  cbn [split_lines count_lf]. destruct (split_lines t) as [ls tl]. cbn [fst] in IH.
  destruct (Ascii.eqb c "010"); [simpl; lia |].
  destruct ls; simpl in *; lia.
Qed.

Lemma count_lf_app (a b : string) : count_lf (a +:+ b) = (count_lf a + count_lf b)%nat.
Proof.
  induction a as [|c a IH]; [reflexivity |].
  rewrite append_cons. cbn [count_lf]. rewrite IH. lia.
Qed.

Lemma not_newline_high (lo hi : nat) (b : ascii) :
  (11 <= lo)%nat -> Utf8.between lo hi b = true -> Ascii.eqb b "010" = false.
Proof.
  intros Hlo Hb. apply Ascii.eqb_neq. intros ->.
  now rewrite between_newline in Hb.
Qed.

Lemma not_newline_outside (b : ascii) :
  Utf8.between 0 127 b = false -> Ascii.eqb b "010" = false.
Proof. intros Hb. apply Ascii.eqb_neq. intros ->. discriminate. Qed.

(** Decoding neither adds nor removes a line feed. *)
Lemma count_lf_decode_bounded (n : nat) (a : string) :
  (String.length a <= n)%nat -> count_lf (Utf8.decode a) = count_lf a.
Proof.
  revert a. induction n as [|n IH]; intros a Hn.
  - destruct a; [reflexivity | simpl in Hn; lia].
  - destruct a as [|b0 a1]; [reflexivity |].
    assert (IH1 : forall a', (String.length a' <= String.length a1)%nat ->
              count_lf (Utf8.decode a') = count_lf a').
    { intros a' Ha'. apply IH. simpl in Hn. lia. }
    assert (Hrep : forall t, count_lf (Utf8.replacement +:+ t) = count_lf t) by reflexivity.
    cbn [Utf8.decode].
    destruct (Utf8.between 0 127 b0) eqn:H0.
    { cbn [count_lf]. now rewrite IH1 by lia. }
    pose proof (not_newline_outside b0 H0) as Hb0.
    assert (Hcont : forall b, Utf8.continuation b = true -> Ascii.eqb b "010" = false)
      by (intros b; apply not_newline_high; lia).
    assert (Hsec : forall b, Utf8.between (Utf8.second_low b0) (Utf8.second_high b0) b = true ->
                             Ascii.eqb b "010" = false)
      by (intros b; apply not_newline_high, second_low_ge).
    assert (Hskip : count_lf (Utf8.replacement +:+ Utf8.decode a1) = count_lf (String b0 a1)).
    { rewrite Hrep, IH1 by lia. cbn [count_lf]. now rewrite Hb0. }
    destruct (Utf8.between 194 223 b0).
    { destruct a1 as [|b1 a2]; [cbn [count_lf]; now rewrite Hb0 |].
      destruct (Utf8.continuation b1) eqn:H1; [| exact Hskip].
      cbn [count_lf]. rewrite Hb0, (Hcont b1 H1). rewrite IH1 by (simpl; lia). reflexivity. }
    destruct (Utf8.between 224 239 b0).
    { destruct a1 as [|b1 a2]; [cbn [count_lf]; now rewrite Hb0 |].
      destruct (Utf8.between _ _ b1) eqn:H1; [| exact Hskip].
      destruct a2 as [|b2 a3]; [cbn [count_lf]; now rewrite Hb0, (Hsec b1 H1) |].
      destruct (Utf8.continuation b2) eqn:H2.
      - cbn [count_lf]. rewrite Hb0, (Hsec b1 H1), (Hcont b2 H2).
        rewrite IH1 by (simpl; lia). reflexivity.
      - rewrite Hrep, IH1 by (simpl; lia). cbn [count_lf].
        now rewrite Hb0, (Hsec b1 H1). }
    destruct (Utf8.between 240 244 b0).
    { destruct a1 as [|b1 a2]; [cbn [count_lf]; now rewrite Hb0 |].
      destruct (Utf8.between _ _ b1) eqn:H1; [| exact Hskip].
      destruct a2 as [|b2 a3]; [cbn [count_lf]; now rewrite Hb0, (Hsec b1 H1) |].
      destruct (Utf8.continuation b2) eqn:H2.
      - destruct a3 as [|b3 a4];
          [cbn [count_lf]; now rewrite Hb0, (Hsec b1 H1), (Hcont b2 H2) |].
        destruct (Utf8.continuation b3) eqn:H3.
        + cbn [count_lf]. rewrite Hb0, (Hsec b1 H1), (Hcont b2 H2), (Hcont b3 H3).
          rewrite IH1 by (simpl; lia). reflexivity.
        + rewrite Hrep, IH1 by (simpl; lia). cbn [count_lf].
          now rewrite Hb0, (Hsec b1 H1), (Hcont b2 H2).
      - rewrite Hrep, IH1 by (simpl; lia). cbn [count_lf].
        now rewrite Hb0, (Hsec b1 H1). }
    exact Hskip.
Qed.

Lemma count_lf_decode (a : string) : count_lf (Utf8.decode a) = count_lf a.
Proof. now apply (count_lf_decode_bounded (String.length a)). Qed.

Lemma decode_chunks_S (fuel size : nat) (bytes : string) :
  String.substring 0 size bytes <> EmptyString ->
  decode_chunks (S fuel) size bytes
  = Utf8.decode (String.substring 0 size bytes) +:+
    decode_chunks fuel size (JsString.drop (String.length (String.substring 0 size bytes)) bytes).
Proof.
  intros Hne. cbn [decode_chunks].
  destruct (String.substring 0 size bytes); [congruence | reflexivity].
Qed.

Lemma count_lf_decode_chunks (fuel size : nat) (bytes : string) :
  (0 < size)%nat -> (String.length bytes <= fuel)%nat ->
  count_lf (decode_chunks fuel size bytes) = count_lf bytes.
Proof.
  intros Hsize. revert bytes. induction fuel as [|fuel IH]; intros bytes Hfuel.
  - destruct bytes; [reflexivity | simpl in Hfuel; lia].
  - destruct (string_dec (String.substring 0 size bytes) EmptyString) as [He | Hne].
    + rewrite (substring_0_empty size bytes Hsize He). now rewrite decode_chunks_empty.
    + rewrite decode_chunks_S by exact Hne.
      rewrite count_lf_app, count_lf_decode, IH.
      * now rewrite <- count_lf_app, substring_0_drop.
      * rewrite length_drop.
        destruct (String.substring 0 size bytes); [congruence | simpl String.length; lia].
Qed.

(** Reading keeps the number of lines. *)
Lemma length_lines_of_read_text (c : string) :
  length (lines_of (read_text c)) = length (lines_of c).
Proof.
  rewrite !length_lines_of_count. apply count_lf_decode_chunks; [apply bufferSize_pos | lia].
Qed.

Lemma substring_0_app_l (m : nat) (p q : string) :
  (m <= String.length p)%nat -> String.substring 0 m (p +:+ q) = String.substring 0 m p.
Proof.
  revert p. induction m as [|m IH]; intros [|c p] H.
  - now destruct q.
  - reflexivity.
  - simpl in H. lia.
  - rewrite append_cons. simpl. f_equal. apply IH. simpl in H. lia.
Qed.

Lemma substring_0_app_r (m : nat) (p q : string) :
  (String.length p <= m)%nat ->
  String.substring 0 m (p +:+ q) = p +:+ String.substring 0 (m - String.length p) q.
Proof.
  revert m. induction p as [|c p IH]; intros m H.
  - rewrite !append_nil_l. simpl. now rewrite Nat.sub_0_r.
  - destruct m as [|m]; [simpl in H; lia |].
    rewrite !append_cons. simpl. f_equal. apply IH. simpl in H. lia.
Qed.

Lemma drop_app_l (n : nat) (p q : string) :
  (n <= String.length p)%nat -> JsString.drop n (p +:+ q) = JsString.drop n p +:+ q.
Proof.
  revert p. induction n as [|n IH]; intros [|c p] H; try reflexivity.
  - simpl in H. lia.
  - rewrite append_cons. simpl. apply IH. simpl in H. lia.
Qed.

Lemma length_substring_0_le (m : nat) (s : string) :
  (m <= String.length s)%nat -> String.length (String.substring 0 m s) = m.
Proof.
  revert s. induction m as [|m IH]; intros [|c s] H; try reflexivity.
  - simpl in H. lia.
  - simpl. f_equal. apply IH. simpl in H. lia.
Qed.

Lemma length_newline : String.length newline = 1%nat.
Proof. reflexivity. Qed.

Lemma decode_line (p0 q : string) :
  Utf8.decode ((p0 +:+ newline) +:+ q) = (Utf8.decode p0 +:+ newline) +:+ Utf8.decode q.
Proof. rewrite !append_assoc. apply decode_newline. Qed.

(** Reading bytes that end with a line feed gives a text that ends with a
    line feed, and reading more bytes after them only adds to that text. *)
Lemma decode_chunks_terminated (size fuel : nat) (p0 q : string) :
  (0 < size)%nat ->
  (String.length ((p0 +:+ newline) +:+ q) <= fuel)%nat ->
  exists t0 more,
    decode_chunks (String.length (p0 +:+ newline)) size (p0 +:+ newline) = t0 +:+ newline /\
    decode_chunks fuel size ((p0 +:+ newline) +:+ q) = (t0 +:+ newline) +:+ more.
Proof.
  intros Hsize. revert p0.
  induction fuel as [|fuel IH]; intros p0 Hfuel.
  - rewrite !length_append, length_newline in Hfuel. lia.
  - set (p := p0 +:+ newline) in *.
    assert (Hlenp : String.length p = S (String.length p0))
      by (subst p; rewrite length_append, length_newline; lia).
    rewrite length_append in Hfuel.
    destruct (Nat.le_gt_cases (String.length p) size) as [Hle | Hgt].
    + (* the line feed is in the first buffer *)
      assert (Hp : decode_chunks (String.length p) size p = Utf8.decode p0 +:+ newline).
      { rewrite Hlenp, decode_chunks_S; rewrite substring_0_ge by lia.
        - rewrite <- (append_empty_r p) at 3. rewrite drop_append_length.
          rewrite decode_chunks_empty, append_empty_r. subst p.
          rewrite <- (append_empty_r (p0 +:+ newline)), decode_line.
          now rewrite append_empty_r.
        - subst p. now destruct p0. }
      exists (Utf8.decode p0). eexists.
      split; [exact Hp |].
      rewrite decode_chunks_S; rewrite substring_0_app_r by lia.
      * subst p. rewrite decode_line, append_assoc. reflexivity.
      * subst p. now destruct p0.
    + (* the first buffer ends before the line feed *)
      assert (Hsize0 : (size <= String.length p0)%nat) by lia.
      assert (Hchunk : String.substring 0 size p = String.substring 0 size p0)
        by (subst p; now apply substring_0_app_l).
      assert (Hlen : String.length (String.substring 0 size p0) = size)
        by now apply length_substring_0_le.
      assert (Hne : String.substring 0 size p0 <> EmptyString).
      { intros He. rewrite He in Hlen. simpl in Hlen. lia. }
      destruct (IH (JsString.drop size p0)) as (t0 & more & Hp1 & Hfull).
      { rewrite !length_append, length_drop, length_newline. lia. }
      exists (Utf8.decode (String.substring 0 size p0) +:+ t0), more. split.
      * rewrite Hlenp, decode_chunks_S; rewrite Hchunk; [| exact Hne].
        rewrite Hlen. subst p. rewrite drop_app_l by lia.
        rewrite (decode_chunks_fuel size _ (String.length (JsString.drop size p0 +:+ newline)))
          by (rewrite ?length_append, ?length_drop, ?length_newline; lia).
        rewrite Hp1. now rewrite append_assoc.
      * rewrite decode_chunks_S; rewrite substring_0_app_l by lia; rewrite Hchunk;
          [| exact Hne].
        rewrite Hlen, drop_app_l by lia. subst p. rewrite drop_app_l by lia.
        rewrite Hfull. now rewrite !append_assoc.
Qed.

Lemma unterminated_newline (t0 : string) : unterminated (t0 +:+ newline) = EmptyString.
Proof.
  induction t0 as [|c t0 IH]; [reflexivity |].
  pose proof (length_lines_of_count (t0 +:+ newline)) as Hlen.
  rewrite count_lf_app in Hlen. cbn [count_lf newline Ascii.eqb] in Hlen.
  unfold unterminated, lines_of in *. rewrite append_cons. cbn [split_lines].
  destruct (split_lines (t0 +:+ newline)) as [ls tl]. cbn [fst snd] in *.
  destruct (Ascii.eqb c "010"); [exact IH |].
  destruct ls as [|l ls]; [simpl in Hlen; lia | exact IH].
Qed.

(** A text that ends with a line feed is the concatenation of its lines. *)
Lemma concat_lines_of_terminated (t0 : string) :
  concat_lines (lines_of (t0 +:+ newline)) = t0 +:+ newline.
Proof.
  pose proof (lines_unterminated (t0 +:+ newline)) as H.
  rewrite unterminated_newline, append_empty_r in H. now symmetry.
Qed.

Lemma cut_Some_line (t l r : string) : cut t = Some (l, r) -> cut l = None.
Proof.
  revert l. induction t as [|c t IH]; intros l H; [discriminate |].
  cbn [cut] in H. destruct (Ascii.eqb c "010") eqn:Ec.
  - now injection H as <- _.
  - destruct (cut t) as [[l' r']|]; [| discriminate].
    injection H as <- <-. cbn [cut]. now rewrite Ec, (IH l' eq_refl).
Qed.

Lemma split_lines_line (l : string) :
  cut l = None -> split_lines (l +:+ newline) = ([l +:+ newline], EmptyString).
Proof.
  induction l as [|c l IH]; intros H; [reflexivity |].
  cbn [cut] in H. destruct (Ascii.eqb c "010") eqn:Ec; [discriminate |].
  destruct (cut l) as [[? ?]|]; [discriminate |].
  rewrite append_cons. cbn [split_lines]. now rewrite (IH eq_refl), Ec.
Qed.

Lemma lines_of_cut (t l r : string) :
  cut t = Some (l, r) -> lines_of t = (l +:+ newline) :: lines_of r.
Proof.
  intros H. unfold lines_of. rewrite split_lines_cut, H.
  now destruct (split_lines r).
Qed.

(** The lines of the first lines of a text. *)
Lemma lines_of_first (k : nat) (c : string) :
  lines_of (concat_lines (firstn k (lines_of c))) = firstn k (lines_of c).
Proof.
  revert c. induction k as [|k IH]; intros c; [reflexivity |].
  destruct (cut c) as [[l r]|] eqn:Hcut.
  - rewrite (lines_of_cut _ _ _ Hcut). cbn [firstn concat_lines].
    rewrite lines_of_app. unfold lines_of at 1, unterminated.
    rewrite (split_lines_line l (cut_Some_line _ _ _ Hcut)). cbn [fst snd].
    rewrite append_nil_l, IH. reflexivity.
  - destruct (cut_None_lines _ Hcut) as [-> _]. reflexivity.
Qed.

(** What reading the first lines of a file gives is the first lines of what
    reading the file gives. *)
Lemma read_text_first_lines (k : nat) (c : string) :
  read_text (concat_lines (firstn k (lines_of c)))
  = concat_lines (firstn k (lines_of (read_text c))).
Proof.
  set (p := concat_lines (firstn k (lines_of c))).
  set (q := concat_lines (skipn k (lines_of c)) +:+ unterminated c).
  assert (Hc : c = p +:+ q).
  { subst p q. rewrite <- append_assoc, <- concat_lines_app, firstn_skipn.
    apply lines_unterminated. }
  assert (Hk : length (lines_of p) = Nat.min k (length (lines_of c))).
  { subst p. now rewrite lines_of_first, length_firstn. }
  destruct (concat_lines_terminated (firstn k (lines_of c))) as [Hp | [p0 Hp]].
  { intros l Hl. apply (lines_of_terminated c). eapply In_firstn. exact Hl. }
  - (* no line at all *)
    fold p in Hp. rewrite Hp in *. simpl in Hk.
    assert (Hnone : firstn k (lines_of (read_text c)) = []).
    { apply length_zero_iff_nil. rewrite length_firstn, length_lines_of_read_text. lia. }
    now rewrite Hnone.
  - fold p in Hp.
    destruct (decode_chunks_terminated bufferSize (String.length c) p0 q bufferSize_pos)
      as (t0 & more & Hread & Hfull).
    { rewrite <- Hp, <- Hc. lia. }
    rewrite <- Hp in Hread, Hfull. rewrite <- Hc in Hfull.
    fold (read_text p) in Hread. fold (read_text c) in Hfull.
    assert (Hlen : length (lines_of (t0 +:+ newline)) = Nat.min k (length (lines_of c)))
      by now rewrite <- Hread, length_lines_of_read_text.
    assert (Hmore : length (lines_of more)
                    = (length (lines_of c) - Nat.min k (length (lines_of c)))%nat).
    { pose proof (length_lines_of_read_text c) as Hall.
      rewrite Hfull, lines_of_app, unterminated_newline, append_nil_l, length_app in Hall.
      lia. }
    rewrite Hread, Hfull, lines_of_app, unterminated_newline, append_nil_l.
    rewrite firstn_app, Hlen.
    destruct (Nat.le_gt_cases k (length (lines_of c))) as [Hle | Hgt].
    + rewrite Nat.min_l by lia. rewrite Nat.sub_diag, firstn_O, app_nil_r.
      rewrite firstn_all2 by lia. now rewrite concat_lines_of_terminated.
    + assert (Hnil : lines_of more = []) by (apply length_zero_iff_nil; lia).
      rewrite Hnil, firstn_nil, app_nil_r.
      rewrite firstn_all2 by lia. now rewrite concat_lines_of_terminated.
Qed.

Section Lines.

Context {rt : Runtime}.

(** On a regular file: with enough iterations the first lines come back,
    and the world is as it was, the handle closed. *)
Lemma getFileLines_file (fuel : nat) (this : FileSystem) (relativeFile : string)
    (lineCount : Z) (w : world) (c : string) :
  faults w !! opened this relativeFile = None ->
  entries w !! opened this relativeFile = Some (File c) ->
  match getFileLines fuel this relativeFile lineCount w with
  | None => (fuel <= String.length c)%nat
  | Some r => r = (Fulfilled (Some (first_lines lineCount (read_text c))), w)
  end.
Proof.
  intros Hf He. unfold opened in *.
  unfold getFileLines, try_catch, bind at 1 2, call at 1, fs.open, fs.probe_read, fs.probe.
  rewrite Hf, He. cbn [await ret].
  set (fd := fresh (dom (fds w))).
  set (w1 := set_fds w _).
  assert (Hfresh : fds w !! fd = None) by (apply not_elem_of_dom, is_fresh).
  assert (Hfd : fds w1 !! fd = Some {| h_node := File c; h_pos := 0 |})
    by (subst w1; rewrite fds_set_fds; apply lookup_insert_eq).
  pose proof (read_loop_file fuel fd (fs.alloc bufferSize) lineCount "" "" 0 w1 c 0 Hfd
                ltac:(lia) eq_refl (length_alloc _)) as Hloop.
  cbv zeta in Hloop. cbn [JsString.drop] in Hloop. rewrite !append_nil_l in Hloop.
  fold (read_text c) in Hloop.
  destruct (read_loop fuel fd _ lineCount "" "" 0 w1) as [r|]; [| lia].
  subst r. unfold first_lines.
  destruct (Nat.leb_spec (lines_wanted lineCount 0) (length (lines_of (read_text c))))
    as [Hle | Hgt].
  - subst w1. rewrite set_fds_set_fds, fds_set_fds, delete_insert_id, set_fds_same by done.
    reflexivity.
  - unfold async, bind, call, fs.close. rewrite fds_set_fds, lookup_insert_eq.
    subst w1. rewrite !set_fds_set_fds, !fds_set_fds.
    rewrite delete_insert_eq, delete_insert_id, set_fds_same by done.
    now rewrite firstn_all2 by lia.
Qed.

(** When [open] fails, the error is turned into [undefined] if its message
    mentions ENOENT and is thrown on otherwise; nothing was opened. *)
Lemma getFileLines_open_fails (fuel : nat) (this : FileSystem) (relativeFile : string)
    (lineCount : Z) (w : world) (e : js_error) :
  fs.probe_read "open" (opened this relativeFile) w = inl e ->
  getFileLines fuel this relativeFile lineCount w
  = Some (if JsString.includes (message e) "ENOENT" then Fulfilled None else Rejected e, w).
Proof.
  intros Hp. unfold opened in Hp.
  unfold getFileLines, try_catch, bind at 1 2, call at 1, fs.open. rewrite Hp.
  cbn [await throw]. unfold bind, ret, throw.
  now destruct (JsString.includes (message e) "ENOENT").
Qed.

(** On a directory [open] succeeds and the first read fails: the error is
    thrown on, and the handle stays in the table. *)
Lemma getFileLines_directory (fuel : nat) (this : FileSystem) (relativeFile : string)
    (lineCount : Z) (w : world) :
  faults w !! opened this relativeFile = None ->
  entries w !! opened this relativeFile = Some Dir ->
  getFileLines (S fuel) this relativeFile lineCount w
  = Some (Rejected (JsError "EISDIR: illegal operation on a directory, read"),
          set_fds w (<[fresh (dom (fds w)) := {| h_node := Dir; h_pos := 0 |}]> (fds w))).
Proof.
  intros Hf He. unfold opened in *.
  unfold getFileLines, try_catch, bind at 1 2, call at 1, fs.open, fs.probe_read, fs.probe.
  rewrite Hf, He. cbn [await ret read_loop].
  unfold bind, call, fs.read. rewrite fds_set_fds, lookup_insert_eq. reflexivity.
Qed.

(** X20. Every exit of [getFileLines] that fulfils its promise leaves the world
    as it found it: the handle it opened, if any, is closed. *)
Lemma getFileLines_fulfilled_releases (fuel : nat) (this : FileSystem)
    (relativeFile : string) (lineCount : Z) (w w' : world) (r : option string) :
  getFileLines fuel this relativeFile lineCount w = Some (Fulfilled r, w') ->
  w' = w.
Proof.
  intros H.
  destruct (fs.probe_read "open" (opened this relativeFile) w) as [e | n] eqn:Hp.
  - rewrite (getFileLines_open_fails _ _ _ _ _ _ Hp) in H.
    now injection H as _ <-.
  - unfold fs.probe_read, fs.probe in Hp.
    destruct (faults w !! opened this relativeFile) eqn:Hf; [discriminate |].
    destruct (entries w !! opened this relativeFile) as [[c| |target|c]|] eqn:He;
      [| | discriminate..].
    + pose proof (getFileLines_file fuel this relativeFile lineCount w c Hf He) as Hfile.
      rewrite H in Hfile. now injection Hfile as _ ->.
    + destruct fuel as [|fuel].
      * unfold opened in *. revert H.
        unfold getFileLines, try_catch, bind at 1 2, call at 1, fs.open, fs.probe_read, fs.probe.
        rewrite Hf, He. discriminate.
      * rewrite (getFileLines_directory _ _ _ _ _ Hf He) in H. discriminate.
Qed.

(** What [getFileLines] returns as a string is the first lines of a
    regular file. *)
Lemma getFileLines_string (fuel : nat) (this : FileSystem) (relativeFile : string)
    (lineCount : Z) (w w' : world) (r : string) :
  getFileLines fuel this relativeFile lineCount w = Some (Fulfilled (Some r), w') ->
  exists c, entries w !! opened this relativeFile = Some (File c) /\
            r = first_lines lineCount (read_text c).
Proof.
  intros H.
  destruct (fs.probe_read "open" (opened this relativeFile) w) as [e | n] eqn:Hp.
  - rewrite (getFileLines_open_fails _ _ _ _ _ _ Hp) in H.
    destruct (JsString.includes (message e) "ENOENT"); discriminate.
  - unfold fs.probe_read, fs.probe in Hp.
    destruct (faults w !! opened this relativeFile) eqn:Hf; [discriminate |].
    destruct (entries w !! opened this relativeFile) as [[c| |target|c]|] eqn:He;
      [| | discriminate..].
    + pose proof (getFileLines_file fuel this relativeFile lineCount w c Hf He) as Hfile.
      rewrite H in Hfile. injection Hfile as -> _. now exists c.
    + destruct fuel as [|fuel].
      * unfold opened in *. revert H.
        unfold getFileLines, try_catch, bind at 1 2, call at 1, fs.open, fs.probe_read, fs.probe.
        rewrite Hf, He. discriminate.
      * rewrite (getFileLines_directory _ _ _ _ _ Hf He) in H. discriminate.
Qed.


(** What [getFileLines] returns from a regular file is what reading the
    first lines of the file gives. *)
Lemma getFileLines_reads_first_lines (fuel : nat) (this : FileSystem) (P : string)
    (N : Z) (w w' : world) (r : string) :
  getFileLines fuel this P N w = Some (Fulfilled (Some r), w') ->
  exists c, entries w !! opened this P = Some (File c) /\
            r = read_text (concat_lines (firstn (lines_wanted N 0) (lines_of c))).
Proof.
  intros H. apply getFileLines_string in H as (c & He & ->).
  exists c. split; [exact He |]. unfold first_lines. symmetry. apply read_text_first_lines.
Qed.

(** For a line count of at least one, on a file the lines of which survive
    being read a buffer at a time: from a file of exactly that many lines
    all its lines come back, and from a file of fewer lines all the lines
    it has.  From a path where there is nothing, [undefined].  Lines are
    newline-terminated lines. *)
Lemma getFileLines_all_lines (this : FileSystem) (P : string) (N : Z) (w : world) :
  1 <= N ->
  faults w !! opened this P = None ->
  (forall c fuel,
      entries w !! opened this P = Some (File c) ->
      read_text (concat_lines (lines_of c)) = concat_lines (lines_of c) ->
      (String.length c < fuel)%nat ->
      Z.of_nat (length (lines_of c)) <= N ->
      getFileLines fuel this P N w = Some (Fulfilled (Some (concat_lines (lines_of c))), w))
  /\ (forall fuel,
        entries w !! opened this P = None ->
        getFileLines fuel this P N w = Some (Fulfilled None, w)).
Proof.
  intros HN Hf. split.
  - intros c fuel He Htext Hfuel Hlen.
    pose proof (getFileLines_file fuel this P N w c Hf He) as H.
    destruct (getFileLines fuel this P N w) as [r|]; [| lia].
    rewrite H. unfold first_lines. rewrite <- read_text_first_lines.
    now rewrite firstn_all2, Htext by (unfold lines_wanted; lia).
  - intros fuel He.
    rewrite (getFileLines_open_fails fuel this P N w (ENOENT "open" (opened this P))).
    + now rewrite ENOENT_message.
    + unfold fs.probe_read, fs.probe. now rewrite Hf, He.
Qed.

(** C10. A string returned by [getFileLines] is empty or ends with a line
    feed, and it is what reading the first lines of the file gives: the
    file is its lines followed by an unterminated rest without line feed,
    and the rest has no part in the string. *)
Theorem getFileLines_whole_lines (fuel : nat) (this : FileSystem) (P : string) (N : Z)
    (w w' : world) (r : string) :
  getFileLines fuel this P N w = Some (Fulfilled (Some r), w') ->
  (r = EmptyString \/ exists body, r = body +:+ newline)
  /\ exists c k,
       entries w !! opened this P = Some (File c) /\
       c = concat_lines (lines_of c) +:+ unterminated c /\
       cut (unterminated c) = None /\
       r = read_text (concat_lines (firstn k (lines_of c))).
Proof.
  intros H. split.
  - apply getFileLines_string in H as (c & He & ->).
    apply concat_lines_terminated. intros l Hl.
    apply (lines_of_terminated (read_text c)). eapply In_firstn. exact Hl.
  - apply getFileLines_reads_first_lines in H as (c & He & ->).
    exists c, (lines_wanted N 0).
    repeat split; [exact He | apply lines_unterminated | apply cut_unterminated].
Qed.

End Lines.

(** *** Defects *)

(** C1. In [/repo], where [link.txt] is a symbolic link to [notes.txt],
    the expansion of the absolute pattern [/repo/**/*.txt] gives absolute
    matches and reports [/repo/link.txt] as a link, and [findAllFiles]
    returns that match all the same: the keys it removes are paths
    relative to the target directory, here [link.txt]. *)
Theorem findAllFiles_returns_absolute_link :
  names linked_world !! "/repo/link.txt" = Some (Link "/repo/notes.txt")
  /\ (exists matches reported,
        glob (rt := host_glob) repo (Pattern "/repo/**/*.txt")
             {| cwd := "/repo"; nocase := false; nodir := true; symlinks := Some ∅ |}
             linked_world
        = (Fulfilled (matches, reported), linked_world)
        /\ In "/repo/link.txt" matches
        /\ reported !! path_resolve (Runtime := host_glob) (targetDir repo) "/repo/link.txt"
           = Some true)
  /\ findAllFiles (rt := host_glob) repo (Pattern "/repo/**/*.txt") None linked_world
     = (Fulfilled ["/repo/notes.txt"; "/repo/link.txt"], linked_world).
Proof.
  split; [vm_compute; reflexivity |]. split.
  - eexists _, _. split; [vm_compute; reflexivity |]. split.
    + right. left. reflexivity.
    + vm_compute. reflexivity.
  - vm_compute. reflexivity.
Qed.

(** C3. On a directory, [open] succeeds and the first read fails:
    [getFileLines] rejects with the error of the read, and the handle it
    opened is still in the table of open handles. *)
Theorem getFileLines_read_error_leaks_handle :
  getFileLines (rt := host) 1 repo "docs" 1 docs_world
  = Some (Rejected (JsError "EISDIR: illegal operation on a directory, read"),
          set_fds docs_world {[ 0%nat := {| h_node := Dir; h_pos := 0 |} ]})
  /\ fds docs_world = ∅.
Proof. split; [vm_compute |]; reflexivity. Qed.

(** C4. The file [long.txt] is valid UTF-8 and has exactly one line, in
    which two bytes that encode one character lie on either side of the
    1024th byte.  Asked for one line, [getFileLines] returns a line in
    which two replacement characters stand for that character: not the
    line of the file. *)
Theorem getFileLines_splits_character :
  getFileLines (rt := host) 3 repo "long.txt" 1 long_world
  = Some (Fulfilled (Some (letters 1023 +:+ Utf8.replacement +:+ Utf8.replacement +:+ newline)),
          long_world)
  /\ Utf8.decode long_line = long_line
  /\ lines_of long_line = [long_line]
  /\ letters 1023 +:+ Utf8.replacement +:+ Utf8.replacement +:+ newline <> long_line.
Proof.
  split; [vm_compute; reflexivity |].
  split; [vm_compute; reflexivity |].
  split; [vm_compute; reflexivity |].
  intros H. apply (f_equal String.length) in H. vm_compute in H. discriminate.
Qed.

(** C5. For a path where there is nothing, the detector rejects with an
    ENOENT error, and [isBinaryFile] rejects with that error instead of
    fulfilling with [false]. *)
Theorem isBinaryFile_missing_path_rejects :
  isBinaryFile (rt := host) repo "missing.bin" empty_world
  = (Rejected (ENOENT "stat" "/repo/missing.bin"), empty_world)
  /\ JsString.includes (message (ENOENT "stat" "/repo/missing.bin")) "ENOENT" = true.
Proof. split; vm_compute; reflexivity. Qed.

(** *** Instances *)

(** An ASCII file of two lines: two lines asked for, five lines asked for,
    and a path where there is nothing. *)
Example getFileLines_notes :
  getFileLines (rt := host) 9 repo "notes.txt" 2 notes_world
  = Some (Fulfilled (Some two_lines), notes_world)
  /\ getFileLines (rt := host) 9 repo "notes.txt" 5 notes_world
     = Some (Fulfilled (Some two_lines), notes_world)
  /\ getFileLines (rt := host) 0 repo "absent.txt" 2 notes_world
     = Some (Fulfilled None, notes_world).
Proof.
  destruct (getFileLines_all_lines (rt := host) repo "notes.txt" 2 notes_world
              ltac:(lia) ltac:(vm_compute; reflexivity)) as [Htwo _].
  destruct (getFileLines_all_lines (rt := host) repo "notes.txt" 5 notes_world
              ltac:(lia) ltac:(vm_compute; reflexivity)) as [Hfive _].
  destruct (getFileLines_all_lines (rt := host) repo "absent.txt" 2 notes_world
              ltac:(lia) ltac:(vm_compute; reflexivity)) as [_ Habsent].
  split; [| split].
  - apply (Htwo two_lines 9%nat);
      [vm_compute; reflexivity | vm_compute; reflexivity | vm_compute; lia
      | apply Z.leb_le; vm_compute; reflexivity].
  - apply (Hfive two_lines 9%nat);
      [vm_compute; reflexivity | vm_compute; reflexivity | vm_compute; lia
      | apply Z.leb_le; vm_compute; reflexivity].
  - apply Habsent. vm_compute. reflexivity.
Qed.

Lemma shouldInclude_iff_prefix_witness :
  shouldInclude (rt := host) docs_only "docs/LICENSE.md" = true.
Proof.
  apply (proj2 (shouldInclude_iff_prefix (rt := host) docs_only "docs/LICENSE.md")).
  right. exists "docs", "/LICENSE.md". split; [now left | vm_compute; reflexivity].
Defined.

Lemma set_then_get_readable_witness :
  getFileContents (rt := host) repo "notes.txt" notes_world
  = (Fulfilled (Some two_lines), notes_world).
Proof.
  apply (set_then_get_readable (rt := host) repo "notes.txt" two_lines repo_world notes_world).
  - vm_compute. reflexivity.
  - vm_compute. reflexivity.
  - exists two_lines. vm_compute. reflexivity.
Defined.

(** C9 without the condition: [private.txt] has mode 0200, the process may
    write it and may not read it.  [setFileContents] succeeds with a valid
    text, and [getFileContents] then gives [undefined]. *)
Lemma set_then_get_write_only :
  Utf8.decode "draft" = "draft"
  /\ setFileContents (rt := host) repo "private.txt" "draft" private_world
     = (Fulfilled tt, private_world_written)
  /\ getFileContents (rt := host) repo "private.txt" private_world_written
     = (Fulfilled None, private_world_written).
Proof. repeat split; vm_compute; reflexivity. Qed.

Lemma getFileLines_whole_lines_witness :
  (two_lines = EmptyString \/ exists body, two_lines = body +:+ newline)
  /\ exists c k,
       entries draft_world !! opened (rt := host) repo "draft.txt" = Some (File c) /\
       c = concat_lines (lines_of c) +:+ unterminated c /\
       cut (unterminated c) = None /\
       two_lines = read_text (concat_lines (firstn k (lines_of c))).
Proof.
  apply (getFileLines_whole_lines (rt := host) 20 repo "draft.txt" 5 draft_world draft_world).
  vm_compute. reflexivity.
Defined.

(** ** Further properties *)

(** *** Path normalization *)

Lemma split_not_nil (sep : ascii) (s : string) : JsString.split sep s <> [].
Proof.
  destruct s as [|c s]; [discriminate |].
  cbn [JsString.split]. destruct (Ascii.eqb c sep); [discriminate |].
  destruct (JsString.split sep s); discriminate.
Qed.

Lemma join_cons (glue w : string) (ws : list string) :
  ws <> [] -> JsString.join glue (w :: ws) = w +:+ glue +:+ JsString.join glue ws.
Proof. destruct ws; [congruence | reflexivity]. Qed.

(** Splitting at a character and joining with a slash puts a slash for
    each occurrence of the character. *)
Lemma join_split_replace (sep : ascii) (s : string) :
  JsString.join "/" (JsString.split sep s) = replace_char sep "/" s.
Proof.
  induction s as [|c s IH]; [reflexivity |].
  cbn [JsString.split replace_char].
  pose proof (split_not_nil sep s) as Hne.
  destruct (Ascii.eqb c sep).
  - rewrite join_cons by exact Hne. rewrite IH. reflexivity.
  - destruct (JsString.split sep s) as [|w ws]; [congruence |].
    rewrite <- IH. destruct ws as [|w' ws]; reflexivity.
Qed.

Lemma replace_char_again (sep : ascii) (s : string) :
  replace_char sep "/" (replace_char sep "/" s) = replace_char sep "/" s.
Proof.
  induction s as [|c s IH]; [reflexivity |].
  cbn [replace_char]. rewrite IH. f_equal.
  destruct (Ascii.eqb c sep) eqn:Ec; [| now rewrite Ec].
  now destruct (Ascii.eqb "/" sep).
Qed.

Lemma occurs_replace_char (sep : ascii) (s : string) :
  occurs sep (replace_char sep "/" s) = occurs sep s && Ascii.eqb sep "/".
Proof.
  induction s as [|c s IH]; [reflexivity |].
  cbn [replace_char occurs]. rewrite IH.
  destruct (Ascii.eqb c sep) eqn:Ec.
  - rewrite (Ascii.eqb_sym "/" sep). now destruct (Ascii.eqb sep "/"), (occurs sep s).
  - rewrite Ec. reflexivity.
Qed.

Section Normalization.

Context {rt : Runtime}.

Lemma normalizePath_twice (s : string) : normalizePath (normalizePath s) = normalizePath s.
Proof.
  unfold normalizePath. destruct (String.eqb platform "win32"); [| reflexivity].
  rewrite !join_split_replace. apply replace_char_again.
Qed.

Lemma fix_globs_twice (g : globs) : fix_globs (fix_globs g) = fix_globs g.
Proof.
  destruct g as [s | gs]; cbn [fix_globs]; f_equal.
  - apply normalizePath_twice.
  - rewrite map_map. apply map_ext. intros s. apply normalizePath_twice.
Qed.

Lemma glob_fixed (this : FileSystem) (g : globs) (options : glob_options) :
  glob this (fix_globs g) options = glob this g options.
Proof. unfold glob. now rewrite fix_globs_twice. Qed.

(** X1. On win32 [normalizePath] puts a slash for every occurrence of
    [path.sep] and keeps every other character; elsewhere it returns its
    argument. *)
Theorem normalizePath_replaces (filepath : string) :
  normalizePath filepath
  = if String.eqb platform "win32" then replace_char sep "/" filepath else filepath.
Proof.
  unfold normalizePath. destruct (String.eqb platform "win32"); [| reflexivity].
  apply join_split_replace.
Qed.

(** X2. Normalizing a normalized path changes nothing. *)
Theorem normalizePath_idempotent (filepath : string) :
  normalizePath (normalizePath filepath) = normalizePath filepath.
Proof. apply normalizePath_twice. Qed.

(** X3. [path.sep] occurs in a normalized path only where normalization
    does nothing to it: off win32, or when it is the slash itself. *)
Theorem normalizePath_separator (filepath : string) :
  occurs sep (normalizePath filepath)
  = occurs sep filepath && (negb (String.eqb platform "win32") || Ascii.eqb sep "/").
Proof.
  unfold normalizePath. destruct (String.eqb platform "win32").
  - rewrite join_split_replace, occurs_replace_char. reflexivity.
  - cbn [negb orb]. now rewrite andb_true_r.
Qed.

(** X4. [findAll] normalizes the patterns and hands them to [glob], which
    normalizes them again: the result is that of [glob] on the patterns as
    given, with [cwd] the target directory, [nocase] as a boolean, and
    neither [nodir] nor a [symlinks] object. *)
Theorem findAll_is_glob (this : FileSystem) (g : globs) (nocase : option bool) (w : world) :
  findAll this g nocase w
  = (promise_then
       (fst (glob this g {| cwd := targetDir this; nocase := truthy nocase;
                            nodir := false; symlinks := None |} w)) fst,
     snd (glob this g {| cwd := targetDir this; nocase := truthy nocase;
                         nodir := false; symlinks := None |} w)).
Proof.
  unfold findAll, async at 1, bind, call, ret.
  replace (negb (negb (truthy (Some (default false nocase))))) with (truthy nocase)
    by (destruct nocase as [[|]|]; reflexivity).
  rewrite glob_fixed.
  now destruct (glob this g _ w).
Qed.

(** X5. An empty string in the filter list lets every path through. *)
Theorem shouldInclude_empty_entry (this : FileSystem) (P : string) :
  In EmptyString (filterPaths this) -> shouldInclude this P = true.
Proof.
  intros Hin. unfold shouldInclude.
  destruct (length (filterPaths this) =? 0)%nat; [reflexivity |].
  apply existsb_exists. exists (normalizePath EmptyString). split.
  - apply in_map. exact Hin.
  - replace (normalizePath EmptyString) with EmptyString
      by (unfold normalizePath; now destruct (String.eqb platform "win32")).
    unfold JsString.startsWith.
    now destruct (normalizePath (path_relative _ _)).
Qed.

End Normalization.

(** *** Discovery *)

Lemma filter_all {A} (f : A -> bool) (l : list A) :
  (forall x, f x = true) -> List.filter f l = l.
Proof.
  intros H. induction l as [|x l IH]; [reflexivity |].
  cbn [List.filter]. now rewrite H, IH.
Qed.

Section Discovery.

Context {rt : Runtime}.

(** [findAll] in terms of the engine. *)
Lemma findAll_run (this : FileSystem) (g : globs) (nocase : option bool) (w : world) :
  findAll this g nocase w
  = match matched (fix_globs g) {| cwd := targetDir this; nocase := truthy nocase;
                                   nodir := false; symlinks := None |} w with
    | (Fulfilled r, w') =>
        (Fulfilled (List.filter (fun p => shouldInclude this p) (map normalizePath (fst r))), w')
    | (Rejected e, w') => (Rejected e, w')
    end.
Proof.
  unfold findAll, async at 1, bind, call, ret.
  replace (negb (negb (truthy (Some (default false nocase))))) with (truthy nocase)
    by (destruct nocase as [[|]|]; reflexivity).
  rewrite glob_fixed. unfold glob, async, bind, call, await.
  now destruct (matched (fix_globs g) _ w) as [[r|e] w'].
Qed.

(** [findAllFiles] in terms of the engine. *)
Lemma findAllFiles_run (this : FileSystem) (g : globs) (nocase : option bool) (w : world) :
  findAllFiles this g nocase w
  = match matched (fix_globs g) {| cwd := targetDir this; nocase := truthy nocase;
                                   nodir := true; symlinks := Some ∅ |} w with
    | (Fulfilled r, w') =>
        (Fulfilled
           (List.filter
              (fun filePath =>
                 negb (truthy_property (onlySymlinks_of this (snd r)) (normalizePath filePath)))
              (List.filter (fun p => shouldInclude this p) (map normalizePath (fst r)))), w')
    | (Rejected e, w') => (Rejected e, w')
    end.
Proof.
  unfold findAllFiles, async at 1, bind, call, ret.
  replace (negb (negb (truthy nocase))) with (truthy nocase)
    by (destruct nocase as [[|]|]; reflexivity).
  unfold glob, async, bind, call, await.
  now destruct (matched (fix_globs g) _ w) as [[r|e] w'].
Qed.

Lemma truthy_property_spec (this : FileSystem) (reported : gmap string bool) (key : string) :
  truthy_property (onlySymlinks_of this reported) key = false
  <-> ~ In key object_prototype_keys /\
      forall fullPath, reported !! fullPath = Some true ->
        normalizePath (path_relative (targetDir this) fullPath) <> key.
Proof.
  unfold truthy_property. rewrite orb_false_iff, !bool_decide_eq_false.
  rewrite <- list_elem_of_In. unfold onlySymlinks_of.
  rewrite (elem_of_onlySymlinks
             (fun fullPath => normalizePath (path_relative (targetDir this) fullPath))).
  split.
  - intros [Hown Hproto]. split; [exact Hproto |].
    intros fullPath Hrep Heq. apply Hown. exists fullPath.
    split; [now apply elem_of_map_to_list | now symmetry].
  - intros [Hproto Hlinks]. split; [| exact Hproto].
    intros (fullPath & Hrep & ->). apply (Hlinks fullPath); [| reflexivity].
    now apply elem_of_map_to_list.
Qed.

(** X6. Every path [findAll] or [findAllFiles] returns passes the inclusion
    filter. *)
Theorem discovery_within_filter (this : FileSystem) (g : globs) (nocase : option bool)
    (w w' : world) (found : list string) (p : string) :
  findAll this g nocase w = (Fulfilled found, w') \/
  findAllFiles this g nocase w = (Fulfilled found, w') ->
  In p found ->
  shouldInclude this p = true.
Proof.
  rewrite findAll_run, findAllFiles_run.
  intros [H | H] Hin.
  - destruct (matched _ _ w) as [[r|e] w1]; [| discriminate].
    injection H as <- _. now apply filter_In in Hin as [_ Hin].
  - destruct (matched _ _ w) as [[r|e] w1]; [| discriminate].
    injection H as <- _. apply filter_In in Hin as [Hin _].
    now apply filter_In in Hin as [_ Hin].
Qed.

(** X7. A failure of the engine is the failure of the discovery: [findAll]
    and [findFirst], [findAllFiles] and [findFirstFile] reject with the
    error the expansion rejects with. *)
Theorem discovery_propagates_rejection (this : FileSystem) (g : globs) (nocase : option bool)
    (w w' : world) (e : js_error) :
  (matched (fix_globs g) {| cwd := targetDir this; nocase := truthy nocase;
                            nodir := false; symlinks := None |} w = (Rejected e, w') ->
   findAll this g nocase w = (Rejected e, w') /\
   findFirst this g nocase w = (Rejected e, w'))
  /\ (matched (fix_globs g) {| cwd := targetDir this; nocase := truthy nocase;
                               nodir := true; symlinks := Some ∅ |} w = (Rejected e, w') ->
      findAllFiles this g nocase w = (Rejected e, w') /\
      findFirstFile this g nocase w = (Rejected e, w')).
Proof.
  split; intros H.
  - assert (Hall : findAll this g nocase w = (Rejected e, w'))
      by (rewrite findAll_run; now rewrite H).
    split; [exact Hall |].
    unfold findFirst, async at 1, bind, call, await. now rewrite Hall.
  - assert (Hall : findAllFiles this g nocase w = (Rejected e, w'))
      by (rewrite findAllFiles_run; now rewrite H).
    split; [exact Hall |].
    unfold findFirstFile, async at 1, bind, call, await. now rewrite Hall.
Qed.

(** X8. What [findAllFiles] returns, from what the engine gives: the
    normalized matches that pass the inclusion filter, the normalized form
    of which is neither the name of a property of [Object.prototype] nor
    the normalized relative path of an entry reported as a link. *)
Theorem findAllFiles_membership (this : FileSystem) (g : globs) (nocase : option bool)
    (w w' : world) (matches : list string) (reported : gmap string bool) :
  matched (fix_globs g) {| cwd := targetDir this; nocase := truthy nocase;
                           nodir := true; symlinks := Some ∅ |} w
  = (Fulfilled (matches, reported), w') ->
  exists result,
    findAllFiles this g nocase w = (Fulfilled result, w') /\
    forall p,
      In p result <->
      In p (map normalizePath matches) /\
      shouldInclude this p = true /\
      ~ In (normalizePath p) object_prototype_keys /\
      forall fullPath, reported !! fullPath = Some true ->
        normalizePath (path_relative (targetDir this) fullPath) <> normalizePath p.
Proof.
  intros H. eexists. split.
  - rewrite findAllFiles_run, H. reflexivity.
  - intros p. cbn [fst snd].
    rewrite !filter_In, negb_true_iff, truthy_property_spec. tauto.
Qed.

(** X9. [findAllFiles] and [findFirstFile] never return a path the
    normalized form of which is the name of a property of
    [Object.prototype] ([constructor], [toString], ...): looked up in
    [onlySymlinks], such a name finds the inherited property. *)
Theorem findAllFiles_drops_prototype_names (this : FileSystem) (g : globs)
    (nocase : option bool) (w : world) (p : string) :
  In (normalizePath p) object_prototype_keys ->
  (forall found w', findAllFiles this g nocase w = (Fulfilled found, w') -> ~ In p found)
  /\ (forall w', findFirstFile this g nocase w <> (Fulfilled (Some p), w')).
Proof.
  intros Hproto.
  assert (Hall : forall found w',
             findAllFiles this g nocase w = (Fulfilled found, w') -> ~ In p found).
  { intros found w' H Hin. rewrite findAllFiles_run in H.
    destruct (matched _ _ w) as [[r|e] w1]; [| discriminate].
    injection H as <- _. apply filter_In in Hin as [_ Hkeep].
    apply negb_true_iff, truthy_property_spec in Hkeep as [Hno _]. now apply Hno. }
  split; [exact Hall |].
  intros w' H. unfold findFirstFile, async at 1, bind, call, await in H.
  destruct (findAllFiles this g nocase w) as [[found|e] w1] eqn:Hfound; [| discriminate].
  destruct found as [|x found]; [discriminate |].
  cbn in H. injection H as -> _.
  apply (Hall _ _ eq_refl). now left.
Qed.

(** X10. An accessor made without a filter list returns from [findAll]
    every match of the engine, normalized and in the order of the engine. *)
Theorem findAll_unfiltered (dir : option string) (g : globs) (nocase : option bool)
    (w w' : world) (matches : list string) (reported : gmap string bool) :
  matched (fix_globs g) {| cwd := default "." dir; nocase := truthy nocase;
                           nodir := false; symlinks := None |} w
  = (Fulfilled (matches, reported), w') ->
  findAll (new_FileSystem dir None) g nocase w = (Fulfilled (map normalizePath matches), w').
Proof.
  intros H. rewrite findAll_run. cbn [new_FileSystem targetDir default].
  rewrite H. cbn [fst]. f_equal. f_equal.
  apply filter_all. reflexivity.
Qed.

End Discovery.

(** *** Writing and removing *)

Section Content.

Context {rt : Runtime}.

(** X11. Once [removeFile] has succeeded, the path does not exist and has
    no contents. *)
Theorem removeFile_then_absent (this : FileSystem) (P : string) (w w' : world) :
  removeFile this P w = (Fulfilled tt, w') ->
  relativeFileExists this P w' = (Fulfilled false, w')
  /\ getFileContents this P w' = (Fulfilled None, w').
Proof.
  intros H. unfold removeFile, async, call in H.
  set (file := path_resolve (targetDir this) P) in *.
  assert (Hunlink : fs.unlink file w = (Fulfilled tt, w'))
    by (destruct (fs.unlink file w) as [p w1]; congruence).
  apply unlink_fulfilled in Hunlink as (Hfaults & _ & Hf & Hgone).
  split.
  - unfold relativeFileExists, fileExists, fs.access, fs.probe.
    fold file. now rewrite Hfaults, Hf, Hgone.
  - unfold getFileContents, async, try_catch, bind, call, await, fs.readFile.
    fold file. now rewrite Hfaults, Hf, Hgone.
Qed.

(** X12. Once [setFileContents] has succeeded the path exists, whatever was
    there before. *)
Theorem setFileContents_then_exists (this : FileSystem) (P T : string) (w w' : world) :
  setFileContents this P T w = (Fulfilled tt, w') ->
  relativeFileExists this P w' = (Fulfilled true, w').
Proof.
  intros H. unfold setFileContents, async, call in H.
  set (file := path_resolve (targetDir this) P) in *.
  assert (Hwrite : fs.writeFile file T w = (Fulfilled tt, w'))
    by (destruct (fs.writeFile file T w) as [p w1]; congruence).
  apply writeFile_fulfilled in Hwrite as (Hfaults & _ & Hf & Hstored).
  unfold relativeFileExists, fileExists, fs.access, fs.probe.
  fold file. rewrite Hfaults, Hf.
  now destruct Hstored as [-> | ->].
Qed.

End Content.

(** *** Reading lines *)

Lemma lines_wanted_nonpositive (N lineNumber : Z) :
  N <= 1 -> 0 <= lineNumber -> lines_wanted N lineNumber = lines_wanted 1 lineNumber.
Proof. unfold lines_wanted. lia. Qed.

Lemma read_loop_nonpositive (fuel fd : nat) (buffer : string) (N : Z)
    (leftOver lines : string) (lineNumber : Z) (w : world) :
  N <= 1 -> 0 <= lineNumber ->
  read_loop fuel fd buffer N leftOver lines lineNumber w
  = read_loop fuel fd buffer 1 leftOver lines lineNumber w.
Proof.
  intros HN. revert buffer leftOver lines lineNumber w.
  induction fuel as [|fuel IH]; intros buffer leftOver lines lineNumber w Hln; [reflexivity |].
  cbn [read_loop].
  destruct ((p <- call (fs.read fd buffer bufferSize) ;; await p) w) as [[[read buffer']|e] w1];
    [| reflexivity].
  destruct (read =? 0); [reflexivity |].
  rewrite !scan_from_start. unfold scan_result.
  rewrite (lines_wanted_nonpositive N lineNumber HN Hln).
  destruct (_ <=? _)%nat; [reflexivity |].
  apply IH. lia.
Qed.

Section MoreLines.

Context {rt : Runtime}.

(** X14. A line count of zero or less is a line count of one: the count is
    compared after a line has been taken. *)
Theorem getFileLines_nonpositive (fuel : nat) (this : FileSystem) (P : string) (N : Z)
    (w : world) :
  N <= 1 ->
  getFileLines fuel this P N w = getFileLines fuel this P 1 w.
Proof.
  intros HN. unfold getFileLines.
  destruct (try_catch _ _ w) as [[[undefined|fd]|e] w1]; try reflexivity.
  now rewrite (read_loop_nonpositive fuel fd _ N) by lia.
Qed.

(** X15. When the path cannot be opened, [getFileLines] fulfils with
    [undefined] if the message of the error contains ENOENT, wherever in
    the message, and rejects with the error otherwise; the world is as it
    was. *)
Theorem getFileLines_open_error (fuel : nat) (this : FileSystem) (P : string) (N : Z)
    (w : world) (e : js_error) :
  faults w !! opened this P = Some e ->
  getFileLines fuel this P N w
  = Some (if JsString.includes (message e) "ENOENT" then Fulfilled None else Rejected e, w).
Proof.
  intros Hf. apply getFileLines_open_fails. unfold fs.probe_read, fs.probe. now rewrite Hf.
Qed.

(** X16. On a regular file, with more iterations than the file has bytes,
    [getFileLines] fulfils with the first lines of the text read a buffer
    at a time, as many as asked for and at least one, and leaves the world
    as it was. *)
Theorem getFileLines_regular_file (fuel : nat) (this : FileSystem) (P : string) (N : Z)
    (w : world) (c : string) :
  faults w !! opened this P = None ->
  entries w !! opened this P = Some (File c) ->
  (String.length c < fuel)%nat ->
  getFileLines fuel this P N w
  = Some (Fulfilled (Some (concat_lines (firstn (Z.to_nat (Z.max 1 N))
                                               (lines_of (read_text c))))), w).
Proof.
  intros Hf He Hfuel.
  pose proof (getFileLines_file fuel this P N w c Hf He) as H.
  destruct (getFileLines fuel this P N w) as [r|]; [| lia].
  rewrite H. unfold first_lines, lines_wanted. now rewrite Z.sub_0_r.
Qed.

(** X17. The string [getFileLines] returns holds as many line feeds as
    lines were asked for (at least one), or as the file holds if that is
    fewer. *)
Theorem getFileLines_line_count (fuel : nat) (this : FileSystem) (P : string) (N : Z)
    (w w' : world) (r : string) :
  getFileLines fuel this P N w = Some (Fulfilled (Some r), w') ->
  exists c, entries w !! opened this P = Some (File c) /\
            count_lf r = Nat.min (Z.to_nat (Z.max 1 N)) (count_lf c).
Proof.
  intros H. apply getFileLines_string in H as (c & He & ->).
  exists c. split; [exact He |].
  unfold first_lines, lines_wanted. rewrite Z.sub_0_r.
  rewrite <- read_text_first_lines.
  unfold read_text at 1. rewrite count_lf_decode_chunks by (apply bufferSize_pos || lia).
  rewrite <- length_lines_of_count, lines_of_first, length_firstn.
  now rewrite length_lines_of_count.
Qed.

(** X18. From an ASCII file [getFileLines] returns the first lines of the
    file byte for byte, wherever the buffers end. *)
Theorem getFileLines_ascii (fuel : nat) (this : FileSystem) (P : string) (N : Z)
    (w : world) (c : string) :
  faults w !! opened this P = None ->
  entries w !! opened this P = Some (File c) ->
  ascii_only c = true ->
  (String.length c < fuel)%nat ->
  getFileLines fuel this P N w
  = Some (Fulfilled (Some (concat_lines (firstn (Z.to_nat (Z.max 1 N)) (lines_of c)))), w).
Proof.
  intros Hf He Hascii Hfuel.
  pose proof (getFileLines_file fuel this P N w c Hf He) as H.
  destruct (getFileLines fuel this P N w) as [r|]; [| lia].
  rewrite H, (read_text_ascii c Hascii). unfold first_lines, lines_wanted.
  now rewrite Z.sub_0_r.
Qed.

(** X19. For an ASCII file that ends with a line feed, or is empty, and a
    line count of at least the number of its lines, [getFileLines] and
    [getFileContents] return the same string, provided resolving a
    resolved path gives it back. *)
Theorem getFileLines_whole_file (fuel : nat) (this : FileSystem) (P : string) (N : Z)
    (w : world) (c : string) :
  path_resolve (targetDir this) (path_resolve (targetDir this) P)
  = path_resolve (targetDir this) P ->
  faults w !! path_resolve (targetDir this) P = None ->
  entries w !! path_resolve (targetDir this) P = Some (File c) ->
  ascii_only c = true ->
  unterminated c = EmptyString ->
  Z.of_nat (count_lf c) <= N ->
  (String.length c < fuel)%nat ->
  getFileLines fuel this P N w = Some (getFileContents this P w)
  /\ getFileContents this P w = (Fulfilled (Some c), w).
Proof.
  intros Hres Hf He Hascii Hterm Hcount Hfuel.
  assert (Hcontents : getFileContents this P w = (Fulfilled (Some c), w)).
  { unfold getFileContents, async, try_catch, bind, call, await, fs.readFile.
    rewrite Hf, He. cbn. now rewrite (decode_ascii c Hascii). }
  split; [| exact Hcontents]. rewrite Hcontents.
  assert (Hf' : faults w !! opened this P = None) by (unfold opened; now rewrite Hres).
  assert (He' : entries w !! opened this P = Some (File c)) by (unfold opened; now rewrite Hres).
  pose proof (getFileLines_file fuel this P N w c Hf' He') as H.
  destruct (getFileLines fuel this P N w) as [r|]; [| lia].
  rewrite H, (read_text_ascii c Hascii). unfold first_lines.
  rewrite firstn_all2
    by (rewrite length_lines_of_count; unfold lines_wanted; lia).
  pose proof (lines_unterminated c) as Hc. rewrite Hterm, append_empty_r in Hc.
  now rewrite <- Hc.
Qed.

End MoreLines.

(** *** Instances of the further properties *)

Lemma shouldInclude_empty_entry_witness :
  shouldInclude (rt := host) open_filter "src/index.js" = true.
Proof.
  apply (shouldInclude_empty_entry (rt := host) open_filter "src/index.js").
  simpl. now left.
Defined.

Lemma discovery_within_filter_witness :
  shouldInclude (rt := host_licenses) docs_only "docs/LICENSE.md" = true.
Proof.
  apply (discovery_within_filter (rt := host_licenses) docs_only (Pattern "**/*") None
           empty_world empty_world ["docs/LICENSE.md"] "docs/LICENSE.md").
  - left. vm_compute. reflexivity.
  - simpl. now left.
Defined.

Lemma discovery_propagates_rejection_witness :
  (findAll (rt := host_failing) repo (Pattern "**/*") None empty_world
   = (Rejected (JsError "EACCES: permission denied, scandir '/repo'"), empty_world) /\
   findFirst (rt := host_failing) repo (Pattern "**/*") None empty_world
   = (Rejected (JsError "EACCES: permission denied, scandir '/repo'"), empty_world))
  /\ (findAllFiles (rt := host_failing) repo (Pattern "**/*") None empty_world
      = (Rejected (JsError "EACCES: permission denied, scandir '/repo'"), empty_world) /\
      findFirstFile (rt := host_failing) repo (Pattern "**/*") None empty_world
      = (Rejected (JsError "EACCES: permission denied, scandir '/repo'"), empty_world)).
Proof.
  destruct (discovery_propagates_rejection (rt := host_failing) repo (Pattern "**/*") None
              empty_world empty_world
              (JsError "EACCES: permission denied, scandir '/repo'")) as [Hall Hfiles].
  split; [apply Hall | apply Hfiles]; vm_compute; reflexivity.
Defined.

Lemma findAllFiles_membership_witness :
  exists result,
    findAllFiles (rt := host_licenses) docs_only (Pattern "**/*") None empty_world
    = (Fulfilled result, empty_world) /\
    forall p,
      In p result <->
      In p (map (normalizePath (rt := host_licenses))
                ["LICENSE"; "docs/LICENSE.md"; "link.txt"]) /\
      shouldInclude (rt := host_licenses) docs_only p = true /\
      ~ In (normalizePath (rt := host_licenses) p) object_prototype_keys /\
      forall fullPath,
        (<["/repo/link.txt" := true]>
           (<["/repo/docs/LICENSE.md" := false]>
              (<["/repo/LICENSE" := false]> (∅ : gmap string bool)))) !! fullPath = Some true ->
        normalizePath (rt := host_licenses)
          (path_relative (Runtime := host_licenses) (targetDir docs_only) fullPath)
        <> normalizePath (rt := host_licenses) p.
Proof.
  apply (findAllFiles_membership (rt := host_licenses) docs_only (Pattern "**/*") None
           empty_world empty_world).
  vm_compute. reflexivity.
Defined.

Lemma findAllFiles_drops_prototype_names_witness :
  (forall found w',
      findAllFiles (rt := host_named) repo (Pattern "*") None empty_world
      = (Fulfilled found, w') -> ~ In "constructor" found)
  /\ (forall w',
        findFirstFile (rt := host_named) repo (Pattern "*") None empty_world
        <> (Fulfilled (Some "constructor"), w')).
Proof.
  apply (findAllFiles_drops_prototype_names (rt := host_named) repo (Pattern "*") None
           empty_world "constructor").
  simpl. now left.
Defined.

Lemma findAll_unfiltered_witness :
  findAll (rt := host_licenses) (new_FileSystem (Some "/repo") None) (Pattern "**/*") None
    empty_world
  = (Fulfilled (map (normalizePath (rt := host_licenses))
                    ["LICENSE"; "docs/LICENSE.md"; "link.txt"]), empty_world).
Proof.
  apply (findAll_unfiltered (rt := host_licenses) (Some "/repo") (Pattern "**/*") None
           empty_world empty_world ["LICENSE"; "docs/LICENSE.md"; "link.txt"] ∅).
  vm_compute. reflexivity.
Defined.

Lemma findAllFiles_no_canonical_link_witness :
  (<["/repo/link.txt" := true]>
     (<["/repo/docs/LICENSE.md" := false]>
        (<["/repo/LICENSE" := false]> (∅ : gmap string bool))))
  !! path_resolve (Runtime := host_licenses) (targetDir repo) "LICENSE" <> Some true.
Proof.
  apply (findAllFiles_no_canonical_link (rt := host_licenses) repo (Pattern "**/*") None
           empty_world empty_world ["LICENSE"; "docs/LICENSE.md"; "link.txt"] _
           ["LICENSE"; "docs/LICENSE.md"] "LICENSE").
  - vm_compute. reflexivity.
  - vm_compute. reflexivity.
  - simpl. now left.
  - vm_compute. reflexivity.
Defined.

Lemma removeFile_then_absent_witness :
  relativeFileExists (rt := host) repo "notes.txt" repo_world = (Fulfilled false, repo_world)
  /\ getFileContents (rt := host) repo "notes.txt" repo_world = (Fulfilled None, repo_world).
Proof.
  apply (removeFile_then_absent (rt := host) repo "notes.txt" notes_world repo_world).
  vm_compute. reflexivity.
Defined.

Lemma setFileContents_then_exists_witness :
  relativeFileExists (rt := host) repo "notes.txt" notes_world = (Fulfilled true, notes_world).
Proof.
  apply (setFileContents_then_exists (rt := host) repo "notes.txt" two_lines
           repo_world notes_world).
  vm_compute. reflexivity.
Defined.

Lemma getFileLines_nonpositive_witness :
  getFileLines (rt := host) 9 repo "notes.txt" 0 notes_world
  = getFileLines (rt := host) 9 repo "notes.txt" 1 notes_world.
Proof.
  apply (getFileLines_nonpositive (rt := host) 9 repo "notes.txt" 0 notes_world). lia.
Defined.

Lemma getFileLines_open_error_witness :
  getFileLines (rt := host) 1 repo "ENOENT.md" 1 denied_world
  = Some (if JsString.includes "EACCES: permission denied, open '/repo/ENOENT.md'" "ENOENT"
          then Fulfilled None
          else Rejected (JsError "EACCES: permission denied, open '/repo/ENOENT.md'"),
          denied_world).
Proof.
  apply (getFileLines_open_error (rt := host) 1 repo "ENOENT.md" 1 denied_world
           (JsError "EACCES: permission denied, open '/repo/ENOENT.md'")).
  vm_compute. reflexivity.
Defined.

Lemma getFileLines_regular_file_witness :
  getFileLines (rt := host) 20 repo "draft.txt" 1 draft_world
  = Some (Fulfilled (Some (concat_lines
                             (firstn (Z.to_nat (Z.max 1 1))
                                     (lines_of (read_text (two_lines +:+ "unfinished")))))),
          draft_world).
Proof.
  apply (getFileLines_regular_file (rt := host) 20 repo "draft.txt" 1 draft_world
           (two_lines +:+ "unfinished")).
  - vm_compute. reflexivity.
  - vm_compute. reflexivity.
  - vm_compute. lia.
Defined.

Lemma getFileLines_line_count_witness :
  exists c, entries draft_world !! opened (rt := host) repo "draft.txt" = Some (File c) /\
            count_lf two_lines = Nat.min (Z.to_nat (Z.max 1 7)) (count_lf c).
Proof.
  apply (getFileLines_line_count (rt := host) 20 repo "draft.txt" 7 draft_world draft_world).
  vm_compute. reflexivity.
Defined.

Lemma getFileLines_ascii_witness :
  getFileLines (rt := host) 20 repo "draft.txt" 1 draft_world
  = Some (Fulfilled (Some (concat_lines
                             (firstn (Z.to_nat (Z.max 1 1))
                                     (lines_of (two_lines +:+ "unfinished"))))),
          draft_world).
Proof.
  apply (getFileLines_ascii (rt := host) 20 repo "draft.txt" 1 draft_world
           (two_lines +:+ "unfinished")).
  - vm_compute. reflexivity.
  - vm_compute. reflexivity.
  - vm_compute. reflexivity.
  - vm_compute. lia.
Defined.

Lemma getFileLines_whole_file_witness :
  getFileLines (rt := host) 9 repo "notes.txt" 2 notes_world
  = Some (getFileContents (rt := host) repo "notes.txt" notes_world)
  /\ getFileContents (rt := host) repo "notes.txt" notes_world
     = (Fulfilled (Some two_lines), notes_world).
Proof.
  apply (getFileLines_whole_file (rt := host) 9 repo "notes.txt" 2 notes_world two_lines).
  - vm_compute. reflexivity.
  - vm_compute. reflexivity.
  - vm_compute. reflexivity.
  - vm_compute. reflexivity.
  - vm_compute. reflexivity.
  - apply Z.leb_le. vm_compute. reflexivity.
  - vm_compute. lia.
Defined.

Lemma getFileLines_fulfilled_releases_witness :
  getFileLines (rt := host) 20 repo "draft.txt" 1 draft_world
  = Some (Fulfilled (Some ("one" +:+ newline)), draft_world)
  /\ draft_world = draft_world.
Proof.
  assert (H : getFileLines (rt := host) 20 repo "draft.txt" 1 draft_world
              = Some (Fulfilled (Some ("one" +:+ newline)), draft_world))
    by (vm_compute; reflexivity).
  split; [exact H |].
  exact (getFileLines_fulfilled_releases (rt := host) 20 repo "draft.txt" 1
           draft_world draft_world (Some ("one" +:+ newline)) H).
Defined.
